(** * llama-api: the streaming core of [main.py]

    A shallow embedding of the chat gateway: the history store
    ([load_chat_data], [save_chat_data]), the prompt built from a stored
    record, the async generator [stream_llama_response] as a step machine
    whose steps end at the generator's [await] and [yield] points, and the
    HTTP handlers [chat], [list_chats], [get_history] and [delete_history].

    Python values are modelled as follows.
    - [str] is a list of Unicode code points, [bytes] a list of [byte].
    - The history directory is a finite map from path to file content.
    - An exception is a value of [exn]; a call that may raise returns a
      [result]. *)

From Stdlib Require Import NArith ZArith Strings.Byte Ascii String Lia.
From stdpp Require Import gmap list.

Open Scope N_scope.

(** ** Text and bytes *)

Abbreviation char := N (only parsing).
Abbreviation str := (list N) (only parsing).
Abbreviation bytes := (list byte) (only parsing).

(** A Python string literal with ASCII content. *)
Definition py (s : string) : str := N_of_ascii <$> list_ascii_of_string s.

Definition LF : char := 10.

(** [str.startswith]. *)
Fixpoint startswith (s prefix : str) {struct prefix} : bool :=
  match prefix, s with
  | [], _ => true
  | p :: prefix', c :: s' => (c =? p) && startswith s' prefix'
  | _ :: _, [] => false
  end.

(** [str.endswith]. *)
Definition endswith (s suffix : str) : bool :=
  startswith (rev s) (rev suffix).

(** [sep.join(parts)]. *)
Fixpoint join (sep : str) (parts : list str) : str :=
  match parts with
  | [] => []
  | [p] => p
  | p :: rest => p ++ sep ++ join sep rest
  end.

(** [str.isspace] on one code point: CPython's [_PyUnicode_IsWhitespace]. *)
Definition isspace (c : char) : bool :=
  ((9 <=? c) && (c <=? 13)) || ((28 <=? c) && (c <=? 32))
  || (c =? 133) || (c =? 160) || (c =? 5760)
  || ((8192 <=? c) && (c <=? 8202))
  || (c =? 8232) || (c =? 8233) || (c =? 8239) || (c =? 8287) || (c =? 12288).

Fixpoint lstrip (s : str) : str :=
  match s with
  | [] => []
  | c :: s' => if isspace c then lstrip s' else s
  end.

Definition rstrip (s : str) : str := rev (lstrip (rev s)).

(** [str.strip()] with no argument. *)
Definition strip (s : str) : str := rstrip (lstrip s).

(** [str.split(sep)] for a non-empty [sep]: a left-to-right scan for
    non-overlapping occurrences.  [skip] counts the characters of a matched
    separator that are still to be passed over, [cur] is the piece being
    collected. *)
Fixpoint split_go (sep : str) (skip : nat) (cur : str) (s : str) : list str :=
  match s with
  | [] => [cur]
  | c :: s' =>
      match skip with
      | S k => split_go sep k cur s'
      | O =>
          if startswith s sep
          then cur :: split_go sep (length sep - 1) [] s'
          else split_go sep 0 (cur ++ [c]) s'
      end
  end.

Definition split (s sep : str) : list str := split_go sep 0 [] s.

(** [l[-1]] on a list of strings that is never empty here. *)
Definition last_piece (l : list str) : str := List.last l [].

(** [l[-n:]]: the last [n] elements, the whole list when it is shorter. *)
Definition last_n {A} (n : nat) (l : list A) : list A :=
  drop (length l - n) l.

(** *** UTF-8 *)

Definition byte_of (n : N) : byte :=
  match Byte.of_N n with Some b => b | None => x00 end.

(** [str.encode('utf-8')] on one code point.  Python raises
    [UnicodeEncodeError] on a lone surrogate; the only text this program
    encodes is a literal followed by the output of [decode_ignore], which
    holds no surrogate (see [error_message_scalar]). *)
Definition encode_char (c : char) : bytes :=
  if c <? 128 then [byte_of c]
  else if c <? 2048 then [byte_of (192 + c / 64); byte_of (128 + c mod 64)]
  else if c <? 65536 then
    [byte_of (224 + c / 4096); byte_of (128 + (c / 64) mod 64);
     byte_of (128 + c mod 64)]
  else
    [byte_of (240 + c / 262144); byte_of (128 + (c / 4096) mod 64);
     byte_of (128 + (c / 64) mod 64); byte_of (128 + c mod 64)].

Definition encode (s : str) : bytes := s ≫= encode_char.

Definition is_cont (b : N) : bool := (128 <=? b) && (b <? 192).

(** [bytes.decode('utf-8', 'ignore')] on the numeric values of the bytes.
    An ill-formed sequence is dropped up to the first byte that cannot
    continue it; a sequence cut off by the end of the input is dropped
    whole. *)
Fixpoint decode_go (bs : list N) : str :=
  match bs with
  | [] => []
  | b1 :: r1 =>
      if b1 <? 128 then b1 :: decode_go r1
      else if b1 <? 194 then decode_go r1
      else if b1 <? 224 then
        match r1 with
        | [] => []
        | b2 :: r2 =>
            if is_cont b2
            then ((b1 - 192) * 64 + (b2 - 128)) :: decode_go r2
            else decode_go r1
        end
      else if b1 <? 240 then
        match r1 with
        | [] => []
        | b2 :: r2 =>
            if is_cont b2 && negb ((b1 =? 224) && (b2 <? 160))
               && negb ((b1 =? 237) && (160 <=? b2))
            then
              match r2 with
              | [] => []
              | b3 :: r3 =>
                  if is_cont b3
                  then ((b1 - 224) * 4096 + (b2 - 128) * 64 + (b3 - 128))
                         :: decode_go r3
                  else decode_go r2
              end
            else decode_go r1
        end
      else if b1 <? 245 then
        match r1 with
        | [] => []
        | b2 :: r2 =>
            if is_cont b2 && negb ((b1 =? 240) && (b2 <? 144))
               && negb ((b1 =? 244) && (144 <=? b2))
            then
              match r2 with
              | [] => []
              | b3 :: r3 =>
                  if is_cont b3 then
                    match r3 with
                    | [] => []
                    | b4 :: r4 =>
                        if is_cont b4
                        then ((b1 - 240) * 262144 + (b2 - 128) * 4096
                              + (b3 - 128) * 64 + (b4 - 128)) :: decode_go r4
                        else decode_go r3
                    end
                  else decode_go r2
              end
            else decode_go r1
        end
      else decode_go r1
  end.

Definition decode_ignore (b : bytes) : str := decode_go (Byte.to_N <$> b).

(** A Unicode scalar value: a code point that is not a surrogate. *)
Definition scalar_value (c : char) : Prop :=
  (c < 55296 \/ 57344 <= c) /\ c < 1114112.

(** A bytes literal with ASCII content. *)
Definition pyb (s : string) : bytes := encode (py s).

(** ** Configuration *)

Definition LLAMA_CLI_PATH : str := py "/home/viper/llama.cpp/build/bin/llama-cli".
Definition MODEL_PATH : str := py "/home/viper/llama.cpp/models/zephyr/zephyr.gguf".
Definition HISTORY_DIR : str := py "chat_history".
Definition MAX_HISTORY_MESSAGES : nat := 10.
Definition MAX_INPUT_LENGTH : nat := 2048.
Definition MAX_TOTAL_CHATS : nat := 100.

(** ** Request validation *)

(** The character class [[a-zA-Z0-9_-]]. *)
Definition chat_id_char (c : char) : bool :=
  ((97 <=? c) && (c <=? 122)) || ((65 <=? c) && (c <=? 90))
  || ((48 <=? c) && (c <=? 57)) || (c =? 95) || (c =? 45).

(** The constraints of [SafeChatID] on a value whose whitespace has been
    stripped: [min_length=1], [max_length=50] and the anchored pattern. *)
Definition SafeChatID_ok (v : str) : bool :=
  (1 <=? length v)%nat && (length v <=? 50)%nat && forallb chat_id_char v.

(** The validator works on the value as a Rust string.  Its
    [strip_whitespace] is [str::trim], which removes the characters with
    the Unicode property [White_Space] (the separators U+001C to U+001F,
    which Python's [str.strip] removes, are not among them), and a value
    that holds a surrogate is no Rust string and is rejected. *)
Definition is_white_space (c : char) : bool :=
  ((9 <=? c) && (c <=? 13)) || (c =? 32) || (c =? 133) || (c =? 160)
  || (c =? 5760) || ((8192 <=? c) && (c <=? 8202))
  || (c =? 8232) || (c =? 8233) || (c =? 8239) || (c =? 8287) || (c =? 12288).

Definition is_scalar (c : char) : bool :=
  ((c <? 55296) || (57344 <=? c)) && (c <? 1114112).

Fixpoint trim_start (s : str) : str :=
  match s with
  | [] => []
  | c :: s' => if is_white_space c then trim_start s' else s
  end.

Definition trim_end (s : str) : str := rev (trim_start (rev s)).

Definition trim (s : str) : str := trim_end (trim_start s).

(** The checks run in this order: the value is a string of scalar
    values, it is trimmed, its length is checked, then its pattern. *)
Definition SafeChatID (raw : str) : option str :=
  if forallb is_scalar raw then
    let v := trim raw in
    if SafeChatID_ok v then Some v else None
  else None.

Definition SafeStr (raw : str) : option str :=
  if forallb is_scalar raw then
    let v := trim raw in
    if (1 <=? length v)%nat && (length v <=? MAX_INPUT_LENGTH)%nat
    then Some v else None
  else None.

Record ChatRequest := { message : str; chat_id : str }.

(** ** The history store *)

Record turn := { user : str; assistant : str }.

(** The dict a history file holds.  [system_prompt] is [None] when the key
    is [null] or missing, which [dict.get] does not tell apart; [history] is
    [None] when the key is missing.  Where a key is present its value has
    the type the gateway writes: a string, a list of turns. *)
Record chat_data := { system_prompt : option str; history : option (list turn) }.

(** What a file of the history directory holds: the complete JSON text of
    a record, or text that [json.load] rejects (an empty file, a document
    cut short, foreign bytes). *)
Inductive file_content :=
| Document (d : chat_data)
| Unparseable.

(** The files of a POSIX, case-sensitive file system, named by the text of
    their path.  Two texts can name one file (a [.] component, a doubled
    separator); the handlers only receive chat ids that passed
    [SafeChatID], and for those different paths are different files.
    Statements that compare the files of two sessions are made for such
    ids. *)
Abbreviation filesystem := (gmap (list N) file_content) (only parsing).

Inductive exn :=
| JSONDecodeError
| KeyError
| ValueError
| OSError
| HTTPException (status_code : nat).

Inductive result (A : Type) :=
| Ok (a : A)
| Raise (e : exn).
Arguments Ok {A} a.
Arguments Raise {A} e.

(** [os.path.join] of [posixpath]. *)
Fixpoint os_path_join (a : str) (p : list str) : str :=
  match p with
  | [] => a
  | b :: p' =>
      let path :=
        if startswith b (py "/") then b
        else if (length a =? 0)%nat || endswith a (py "/") then a ++ b
        else a ++ py "/" ++ b in
      os_path_join path p'
  end.

Definition get_sanitized_history_path (chat_id : str) : str :=
  os_path_join HISTORY_DIR [chat_id ++ py ".json"].

(** [os.path.exists] on a regular file. *)
Definition os_path_exists (fs : filesystem) (path : str) : bool :=
  match fs !! path with Some _ => true | None => false end.

(** The name of [path] as an entry of directory [dir], when [path] lies
    directly in it. *)
Fixpoint entry_name (dir path : str) : option str :=
  match dir, path with
  | [], 47 :: name => if forallb (fun c => negb (c =? 47)) name then Some name else None
  | d :: dir', c :: path' => if c =? d then entry_name dir' path' else None
  | _, _ => None
  end.

(** [os.listdir]: the history directory holds regular files only. *)
Definition os_listdir (fs : filesystem) (dir : str) : list str :=
  omap (entry_name dir) (elements (dom fs)).

Definition empty_chat_data : chat_data :=
  {| system_prompt := None; history := Some [] |}.

Definition load_chat_data (fs : filesystem) (chat_id : str) : result chat_data :=
  let history_file := get_sanitized_history_path chat_id in
  if os_path_exists fs history_file then
    match fs !! history_file with
    | Some (Document d) => Ok d
    | _ => Raise JSONDecodeError
    end
  else Ok empty_chat_data.

(** How the disk behaves on a write. *)
Inductive disk_condition :=
| Healthy
| Open_fails    (* [open(path, "w")] raises: the file is left as it was *)
| Write_fails   (* the file is opened, hence truncated, and a write raises *)
| Remove_fails. (* [os.remove] raises *)

(** [save_chat_data] opens the file itself in mode ["w"] and dumps into it.
    Opening truncates the file; the text of a record is a JSON object, no
    proper prefix of which is a JSON document. *)
Definition save_chat_data (disk : disk_condition) (fs : filesystem)
    (chat_id : str) (data : chat_data) : filesystem * result unit :=
  let history_file := get_sanitized_history_path chat_id in
  match disk with
  | Healthy | Remove_fails => (<[history_file := Document data]> fs, Ok tt)
  | Open_fails => (fs, Raise OSError)
  | Write_fails => (<[history_file := Unparseable]> fs, Raise OSError)
  end.

(** ** Prompt assembly (lines 99 to 108, and again 172 to 178) *)

Definition format_turn (t : turn) : str :=
  py "### Human: " ++ user t ++ [LF] ++ py "### Assistant: " ++ assistant t.

Definition format_message (message : str) : str :=
  py "### Human: " ++ message ++ [LF] ++ py "### Assistant:".

Definition prompt_parts (data : chat_data) (message : str) : list str :=
  let chat_history := last_n MAX_HISTORY_MESSAGES (default [] (history data)) in
  (match system_prompt data with
   | Some (c :: s) => [c :: s]
   | _ => []
   end)
  ++ (format_turn <$> chat_history)
  ++ [format_message message].

Definition full_prompt (data : chat_data) (message : str) : str :=
  join [LF] (prompt_parts data message).

(** ** The world a request runs in *)

(** The external generation process as the gateway sees it: the bytes it
    still has to deliver on its standard output, what it leaves on its
    standard error, its exit status, and whether the end of its output is
    signalled together with the last byte ([at_eof] then holds at once) or
    only to the next [read].

    Nothing reads the standard error before line 123.  A child that fills
    that pipe blocks before it closes its output, and [read] at line 116
    then never returns ([stdout_closes] is [false]); a child that has
    exited with more standard error pending than the stream reader buffers
    may leave [process.wait()] at line 120 waiting for ever
    ([wait_returns] is [false]). *)
Record process := {
  stdout : bytes;
  stderr : bytes;
  returncode : Z;
  eof_fed : bool;
  stdout_closes : bool;
  wait_returns : bool
}.

Definition with_stdout (p : process) (l : bytes) : process :=
  {| stdout := l; stderr := stderr p; returncode := returncode p;
     eof_fed := eof_fed p; stdout_closes := stdout_closes p;
     wait_returns := wait_returns p |}.

(** The child closes its output and is reaped. *)
Definition completes (p : process) : bool := stdout_closes p && wait_returns p.

(** What the gateway has done with its child: the source spawns it and
    waits for it; it has no call that signals it. *)
Inductive child_status :=
| No_child
| Child_running    (* spawned, neither waited for nor signalled *)
| Child_reaped.    (* [process.wait()] has returned *)

Record world := {
  store : gmap (list N) file_content;
  disk : disk_condition;
  chat_locks : gset (list N);
  child : child_status
}.

Definition set_store (w : world) (fs : filesystem) : world :=
  {| store := fs; disk := disk w; chat_locks := chat_locks w; child := child w |}.

Definition set_child (w : world) (c : child_status) : world :=
  {| store := store w; disk := disk w; chat_locks := chat_locks w; child := c |}.

(** [chat_locks[chat_id]] on the [defaultdict]: the lock is created on
    first use.  No holder of a lock awaits inside its [async with] block, so
    every acquisition succeeds at once. *)
Definition touch_lock (w : world) (chat_id : str) : world :=
  {| store := store w; disk := disk w;
     chat_locks := {[chat_id]} ∪ chat_locks w; child := child w |}.

(** ** [stream_llama_response] *)

Definition command (full_prompt : str) : list str :=
  [LLAMA_CLI_PATH; py "-m"; MODEL_PATH; py "--prompt"; full_prompt;
   py "-n"; py "-1"].

(** [asyncio.create_subprocess_exec].  An argument that holds a NUL makes
    the call raise [ValueError]; otherwise [llama_cli] is what the operating
    system makes of the command line: the child, or the exception of a
    failed exec (an argument too long, a missing program). *)
Definition has_nul (s : str) : bool := existsb (fun c => c =? 0) s.

Definition create_subprocess_exec (llama_cli : list str -> result process)
    (command : list str) : result process :=
  if existsb has_nul command then Raise ValueError else llama_cli command.

(** [process.stdout.at_eof()]. *)
Definition at_eof (p : process) : bool :=
  stdout_closes p && eof_fed p && (length (stdout p) =? 0)%nat.

(** [process.stdout.read(1)] once it returns: the byte read, if any, and
    the process with that byte consumed. *)
Definition read1 (p : process) : bytes * process :=
  match stdout p with
  | [] => ([], p)
  | b :: rest => ([b], with_stdout p rest)
  end.

(** Line 123. *)
Definition stderr_text (p : process) : str := strip (decode_ignore (stderr p)).

(** Line 124. *)
Definition error_message (stderr : str) : str :=
  [LF; LF] ++ py "[ERROR] Model execution failed. Details:" ++ [LF]
  ++ stderr ++ [LF].

Definition ASSISTANT_MARKER : str := py "### Assistant:".

(** Line 129. *)
Definition assistant_response (full_response_bytes : bytes) : str :=
  strip (last_piece (split (decode_ignore full_response_bytes) ASSISTANT_MARKER)).

(** Lines 136 and 137 on the record just loaded, whose history is [h]. *)
Definition append_turn (data : chat_data) (h : list turn) (t : turn) : chat_data :=
  {| system_prompt := system_prompt data;
     history := Some (last_n MAX_HISTORY_MESSAGES (h ++ [t])) |}.

(** Lines 134 to 138: the block under the second [async with lock].
    Line 136 subscripts the record, where line 99 used [get]: a record
    without the key [history] raises here. *)
Definition finalize (w : world) (chat_request : ChatRequest)
    (assistant_response : str) : world * result unit :=
  match load_chat_data (store w) (chat_id chat_request) with
  | Raise e => (w, Raise e)
  | Ok final_chat_data =>
      match history final_chat_data with
      | None => (w, Raise KeyError)
      | Some h =>
          let t := {| user := message chat_request;
                      assistant := assistant_response |} in
          let '(fs, r) :=
            save_chat_data (disk w) (store w) (chat_id chat_request)
              (append_turn final_chat_data h t) in
          (set_store w fs, r)
      end
  end.

(** Where the generator stands: at one of its [await] or [yield] points,
    with the locals that are live there, or finished. *)
Inductive gen :=
| At_lock1                                        (* line 96 *)
| At_spawn (command : list str)                   (* line 111 *)
| At_read (p : process) (full_response_bytes : bytes)         (* line 116 *)
| At_yield_token (p : process) (full_response_bytes : bytes)  (* line 119 *)
| At_wait (p : process) (full_response_bytes : bytes)         (* line 120 *)
| At_stderr_read (p : process)                    (* line 123 *)
| At_yield_error                                  (* line 126 *)
| At_lock2 (assistant_response : str)             (* line 134 *)
| Returned
| Raised (e : exn)
| Closed.                                         (* left by [aclose] *)

(** The head of the [while] loop, line 115. *)
Definition loop_head (p : process) (full_response_bytes : bytes) : gen :=
  if at_eof p then At_wait p full_response_bytes
  else At_read p full_response_bytes.

(** One step: from an [await] or [yield] point to the next, with the chunk
    yielded on the way, if any.  An [await] that never returns leaves the
    generator where it stands. *)
Definition step (llama_cli : list str -> result process) (chat_request : ChatRequest)
    (w : world) (g : gen) : world * gen * option bytes :=
  match g with
  | At_lock1 =>
      let w := touch_lock w (chat_id chat_request) in
      match load_chat_data (store w) (chat_id chat_request) with
      | Raise e => (w, Raised e, None)
      | Ok chat_data =>
          (w, At_spawn (command (full_prompt chat_data (message chat_request))), None)
      end
  | At_spawn command =>
      match create_subprocess_exec llama_cli command with
      | Raise e => (w, Raised e, None)
      | Ok process => (set_child w Child_running, loop_head process [], None)
      end
  | At_read p full_response_bytes =>
      match read1 p with
      | ([], _) =>
          if stdout_closes p then (w, At_wait p full_response_bytes, None)
          else (w, g, None)
      | (token, p') => (w, At_yield_token p' (full_response_bytes ++ token), Some token)
      end
  | At_yield_token p full_response_bytes =>
      (w, loop_head p full_response_bytes, None)
  | At_wait p full_response_bytes =>
      if wait_returns p then
        let w := set_child w Child_reaped in
        if negb (returncode p =? 0)%Z then (w, At_stderr_read p, None)
        else
          match assistant_response full_response_bytes with
          | [] => (w, Returned, None)
          | c :: s => (w, At_lock2 (c :: s), None)
          end
      else (w, g, None)
  | At_stderr_read p =>
      (w, At_yield_error, Some (encode (error_message (stderr_text p))))
  | At_yield_error => (w, Returned, None)
  | At_lock2 assistant_response =>
      match finalize w chat_request assistant_response with
      | (w', Ok _) => (w', Returned, None)
      | (w', Raise e) => (w', Raised e, None)
      end
  | Returned | Raised _ | Closed => (w, g, None)
  end.

(** The consumer stops iterating.  The exception raised at the point where
    the generator stands meets no handler, no [finally] and no open
    [async with] there, so the generator ends without running any more of
    its body. *)
Definition aclose (w : world) (g : gen) : world * gen :=
  match g with
  | Returned | Raised _ => (w, g)
  | _ => (w, Closed)
  end.

Definition chunks_of (o : option bytes) : list bytes :=
  match o with Some c => [c] | None => [] end.

(** [n] steps of the generator, with the chunks it yields. *)
Fixpoint run (llama_cli : list str -> result process) (chat_request : ChatRequest)
    (n : nat) (w : world) (g : gen) : world * gen * list bytes :=
  match n with
  | O => (w, g, [])
  | S n' =>
      let '(w1, g1, o) := step llama_cli chat_request w g in
      let '(w2, g2, out) := run llama_cli chat_request n' w1 g1 in
      (w2, g2, chunks_of o ++ out)
  end.

Definition finished (g : gen) : bool :=
  match g with Returned | Raised _ | Closed => true | _ => false end.

(** ** HTTP handlers *)

Inductive response :=
| PlainTextResponse (body : str)
| StreamingResponse (body_iterator : gen)
| JSON_chat_ids (chat_ids : list str)
| JSON_chat_data (data : chat_data)
| JSON_detail (detail : str).

(** [POST /chat], after validation, authentication and rate limiting. *)
Definition chat (w : world) (chat_request : ChatRequest) (dry_run : bool)
    : world * result response :=
  let history_path := get_sanitized_history_path (chat_id chat_request) in
  let is_new_chat := negb (os_path_exists (store w) history_path) in
  if is_new_chat
     && (MAX_TOTAL_CHATS <=? length (os_listdir (store w) HISTORY_DIR))%nat
  then (w, Raise (HTTPException 429))
  else if dry_run then
    match load_chat_data (store w) (chat_id chat_request) with
    | Raise e => (w, Raise e)
    | Ok chat_data =>
        (w, Ok (PlainTextResponse (full_prompt chat_data (message chat_request))))
    end
  else (w, Ok (StreamingResponse At_lock1)).

(** [os.path.splitext(f)[0]] on a file name: the part before the last dot,
    unless only dots precede it. *)
Definition splitext_root (f : str) : str :=
  let fix after_dot (r : str) : option str :=
    match r with
    | [] => None
    | c :: r' => if c =? 46 then Some r' else after_dot r'
    end in
  match after_dot (rev f) with
  | Some before =>
      if forallb (fun c => c =? 46) before then f else rev before
  | None => f
  end.

(** The [files] of [list_chats]: the entries that are session records. *)
Definition session_files (fs : filesystem) : list str :=
  filter (fun f => endswith f (py ".json") = true) (os_listdir fs HISTORY_DIR).

(** [GET /chats], when the directory can be listed. *)
Definition list_chats (w : world) : world * result response :=
  (w, Ok (JSON_chat_ids (splitext_root <$> session_files (store w)))).

(** The number of stored sessions. *)
Definition session_count (fs : filesystem) : nat := length (session_files fs).

(** [GET /history/{chat_id}]. *)
Definition get_history (w : world) (chat_id : str) : world * result response :=
  let history_file := get_sanitized_history_path chat_id in
  if negb (os_path_exists (store w) history_file)
  then (w, Raise (HTTPException 404))
  else
    match load_chat_data (store w) chat_id with
    | Raise e => (w, Raise e)
    | Ok d => (w, Ok (JSON_chat_data d))
    end.

(** [DELETE /history/{chat_id}]. *)
Definition delete_history (w : world) (chat_id : str) : world * result response :=
  let w := touch_lock w chat_id in
  let history_file := get_sanitized_history_path chat_id in
  if negb (os_path_exists (store w) history_file)
  then (w, Raise (HTTPException 404))
  else
    match disk w with
    | Remove_fails => (w, Raise (HTTPException 500))
    | _ =>
        (set_store w (delete history_file (store w)),
         Ok (JSON_detail (py "Chat history '" ++ chat_id ++ py "' deleted.")))
    end.

(** ** Concrete runs *)

Definition req (id msg : string) : ChatRequest :=
  {| message := py msg; chat_id := py id |}.

Definition world0 : world :=
  {| store := ∅; disk := Healthy; chat_locks := ∅; child := No_child |}.

(** A child that writes [out] and [err], closes its output and exits with
    status [rc], at the moment it is spawned. *)
Definition exited (out : bytes) (rc : Z) (err : bytes) : process :=
  {| stdout := out; stderr := err; returncode := rc; eof_fed := false;
     stdout_closes := true; wait_returns := true |}.

Definition exits (out : string) (rc : Z) (err : string)
    : list str -> result process :=
  fun _ => Ok (exited (pyb out) rc (pyb err)).

(** The same with the bytes of the error stream given as they are. *)
Definition exits_with (out : string) (rc : Z) (err : bytes)
    : list str -> result process :=
  fun _ => Ok (exited (pyb out) rc err).

(** A store holding [n] session records, named by two letters each. *)
Definition two_letter_id (i : nat) : str :=
  [97 + N.of_nat (i / 10); 97 + N.of_nat (i mod 10)].

Definition store_with (n : nat) : gmap (list N) file_content :=
  list_to_map
    ((fun i => (get_sanitized_history_path (two_letter_id i),
                Document empty_chat_data)) <$> seq 0 n).

(** ** Derived notions used in the statements *)

(** The consumer iterating the generator until it is exhausted, as
    [StreamingResponse] does: one step to the spawn, then as many as the
    output of the child calls for.  When the child stalls, what is returned
    is the state the generator is stuck in. *)
Definition steps_bound (p : process) : nat := 2 * length (stdout p) + 6.

Definition stream_llama_response (llama_cli : list str -> result process)
    (chat_request : ChatRequest) (w : world) : world * gen * list bytes :=
  match step llama_cli chat_request w At_lock1 with
  | (_, At_spawn command, _) =>
      match create_subprocess_exec llama_cli command with
      | Ok p => run llama_cli chat_request (1 + steps_bound p) w At_lock1
      | Raise _ => run llama_cli chat_request 2 w At_lock1
      end
  | (w1, g1, _) => (w1, g1, [])
  end.

(** [path] names an entry of [dir] itself that is neither [.] nor [..]. *)
Definition inside_dir (dir path : str) : bool :=
  match entry_name dir path with
  | Some name =>
      negb (bool_decide (name = [])) && negb (bool_decide (name = py "."))
      && negb (bool_decide (name = py ".."))
  | None => false
  end.

(** A sequence of persisted writes to one session: lines 134 to 138 once
    per turn, stopping at the first that raises. *)
Fixpoint persist_turns (w : world) (chat_id : str) (turns : list turn)
    : world * result unit :=
  match turns with
  | [] => (w, Ok tt)
  | t :: turns' =>
      match finalize w {| message := user t; chat_id := chat_id |} (assistant t) with
      | (w', Ok _) => persist_turns w' chat_id turns'
      | (w', Raise e) => (w', Raise e)
      end
  end.

(** The prompt in the words of the specification: the system prompt if
    there is one, a segment of two labelled lines per turn, and a last
    segment whose second label is left open, joined by newlines. *)
Definition spec_prompt (human_label assistant_label : str)
    (system_prompt : option str) (window : list turn) (new_message : str) : str :=
  join [LF]
    (match system_prompt with Some sp => [sp] | None => [] end
     ++ ((fun t => human_label ++ py " " ++ user t ++ [LF]
                   ++ assistant_label ++ py " " ++ assistant t) <$> window)
     ++ [human_label ++ py " " ++ new_message ++ [LF] ++ assistant_label]).

(** The text after the last occurrence of [marker] in [text], in the words
    of the specification; [None] when [marker] does not occur. *)
Fixpoint after_last (marker text : str) : option str :=
  match text with
  | [] => None
  | c :: text' =>
      match after_last marker text' with
      | Some r => Some r
      | None =>
          if startswith text marker then Some (drop (length marker) text)
          else None
      end
  end.

(** The extraction in the words of the specification, for a given marker. *)
Definition spec_assistant_response (marker text : str) : str :=
  strip (default text (after_last marker text)).

(** The process once all of its output has been read. *)
Definition drained (p : process) : process := with_stdout p [].

(** The chunks the loop yields for the bytes [l]: one byte each. *)
Definition tokens (l : bytes) : list bytes := (fun b => [b]) <$> l.

Definition gen_of_result (r : result unit) : gen :=
  match r with Ok _ => Returned | Raise e => Raised e end.

(** No proper suffix of [sep] is a prefix of [sep], so two occurrences of
    [sep] never overlap. *)
Definition border_free (sep : str) : bool :=
  forallb (fun k => negb (startswith sep (drop k sep))) (seq 1 (length sep - 1)).

(** [s] occurs in [t]. *)
Definition occurs_in {A} (s t : list A) : Prop :=
  exists pre post, t = pre ++ s ++ post.

(** The generator stands between its first load and its final block, and
    the child it runs is spawned, closes its output, is reaped, and ends
    with status zero and the response [a]. *)
Definition will_succeed (llama_cli : list str -> result process) (a : str)
    (g : gen) : Prop :=
  match g with
  | At_spawn command =>
      exists p, create_subprocess_exec llama_cli command = Ok p
                /\ completes p = true /\ returncode p = 0%Z
                /\ assistant_response (stdout p) = a
  | At_read p full | At_yield_token p full =>
      completes p = true /\ returncode p = 0%Z
      /\ assistant_response (full ++ stdout p) = a
  | At_wait p full =>
      completes p = true /\ returncode p = 0%Z /\ assistant_response full = a
  | At_lock2 a' => a' = a
  | _ => False
  end.

(** The child has been spawned and not waited for exactly while the
    generator is in its reading loop or at [process.wait()]. *)
Definition child_inv (w : world) (g : gen) : Prop :=
  match g with
  | At_read _ _ | At_yield_token _ _ | At_wait _ _ => child w = Child_running
  | At_stderr_read _ | At_yield_error | At_lock2 _ => child w = Child_reaped
  | _ => True
  end.

(** Stores and records of the scenarios. *)
Definition record_hi_hey : chat_data :=
  {| system_prompt := Some (py "Be terse.");
     history := Some [{| user := py "hi"; assistant := py "hey" |}] |}.

Definition store_abc (c : file_content) : gmap (list N) file_content :=
  {[ get_sanitized_history_path (py "abc") := c ]}.

Definition world_abc (c : file_content) : world :=
  {| store := store_abc c; disk := Healthy; chat_locks := ∅; child := No_child |}.

Definition full_world : world :=
  {| store := store_with MAX_TOTAL_CHATS; disk := Healthy; chat_locks := ∅;
     child := No_child |}.

Definition twelve_turns : list turn :=
  (fun i => {| user := [48 + N.of_nat i]; assistant := [97 + N.of_nat i] |})
    <$> seq 0 12.

(** A request for session [abc] whose record exists, three steps in (the
    first byte of the output has been yielded), and the deletion of the
    record at that point. *)
Definition cli_fine : list str -> result process :=
  exits "### Assistant: fine" 0 "".

Definition three_steps_in : world * gen * list bytes :=
  run cli_fine (req "abc" "hello") 3 (world_abc (Document record_hi_hey)) At_lock1.

Definition then_deleted : world * result response :=
  delete_history three_steps_in.1.1 (py "abc").

(** One whole request after the other for one session: each is consumed to
    the end before the next starts. *)
Definition serve (llama_cli : list str -> result process) (id : str) (w : world)
    (msg : str) : world :=
  (stream_llama_response llama_cli {| message := msg; chat_id := id |} w).1.1.

Definition serve_all (llama_cli : list str -> result process) (id : str) (w : world)
    (msgs : list str) : world :=
  fold_left (serve llama_cli id) msgs w.

(** ** Authentication (lines 36 to 47) *)

Definition SECRET_API_KEY : str := py "your-secret-key-here".

(** [get_api_key] for a configured secret.  The header [X-API-Key] is
    absent ([None]) or carries a key; the dependency returns [None] on its
    first branch and the key on its second. *)
Definition get_api_key_with (secret : str) (api_key : option str)
    : result (option str) :=
  if bool_decide (secret = py "your-secret-key-here") then Ok None
  else if bool_decide (api_key = Some secret) then Ok api_key
  else Raise (HTTPException 403).

Definition get_api_key (api_key : option str) : result (option str) :=
  get_api_key_with SECRET_API_KEY api_key.

(** A string without whitespace at either end. *)
Definition trimmed (s : str) : Prop := lstrip s = s /\ rstrip s = s.

(** A string that [trim] leaves as it is. *)
Definition trimmed_white_space (s : str) : Prop :=
  trim_start s = s /\ trim_end s = s.

(** More stores for concrete runs: a record seeded with a system prompt
    and no history, two sessions side by side, and one session short of the
    maximum. *)
Definition record_no_history : chat_data :=
  {| system_prompt := Some (py "Be terse."); history := None |}.

Definition world_two : world :=
  {| store := <[get_sanitized_history_path (py "xyz") := Document record_hi_hey]>
                (store_abc (Document empty_chat_data));
     disk := Healthy; chat_locks := ∅; child := No_child |}.

Definition world_99 : world :=
  {| store := store_with 99; disk := Healthy; chat_locks := ∅; child := No_child |}.

Definition world_failing_disk : world :=
  {| store := store_abc (Document record_hi_hey); disk := Write_fails;
     chat_locks := ∅; child := No_child |}.

(** * Properties *)

Example prompt_hello :
  full_prompt empty_chat_data (py "hello")
  = py "### Human: hello" ++ [LF] ++ py "### Assistant:".
Proof. vm_compute. reflexivity. Qed.

Example run_ok :
  let '(w, g, out) := stream_llama_response (exits "### Assistant: hey" 0 "") (req "abc" "hi") world0 in
  g = Returned /\
  store w !! get_sanitized_history_path (py "abc")
  = Some (Document {| system_prompt := None;
                      history := Some [{| user := py "hi"; assistant := py "hey" |}] |}) /\
  length out = 18%nat.
Proof. vm_compute. auto. Qed.

Example full_store_count : session_count (store_with 100) = 100%nat.
Proof. vm_compute. reflexivity. Qed.

(** ** Strings *)

Lemma startswith_app (p r : str) : startswith (p ++ r) p = true.
Proof.
  induction p as [|c p IH]; simpl; [reflexivity|].
  rewrite N.eqb_refl. exact IH.
Qed.

Lemma startswith_true (s p : str) :
  startswith s p = true -> s = p ++ drop (length p) s.
Proof.
  revert s. induction p as [|c p IH]; intros s H; simpl in *.
  - reflexivity.
  - destruct s as [|d s]; [discriminate|].
    apply andb_true_iff in H as [Hc Hs]. apply N.eqb_eq in Hc. subst d.
    simpl. f_equal. apply IH, Hs.
Qed.


Lemma last_n_length {A} (n : nat) (l : list A) :
  length (last_n n l) = Nat.min n (length l).
Proof. unfold last_n. rewrite length_drop. lia. Qed.

Lemma last_n_app {A} (n : nat) (l1 l2 : list A) :
  (n <= length l2)%nat -> last_n n (l1 ++ l2) = last_n n l2.
Proof.
  intros H. unfold last_n. rewrite length_app.
  replace (length l1 + length l2 - n)%nat
    with (length l1 + (length l2 - n))%nat by lia.
  apply drop_app_add.
Qed.

(** Truncating before appending more does not change the final window. *)
Lemma last_n_last_n_app {A} (n : nat) (l1 l2 : list A) :
  last_n n (last_n n l1 ++ l2) = last_n n (l1 ++ l2).
Proof.
  unfold last_n. rewrite !length_app, length_drop.
  destruct (decide (length l1 <= n)%nat) as [Hle|Hgt].
  - replace (length l1 - n)%nat with 0%nat by lia. simpl.
    rewrite Nat.sub_0_r. reflexivity.
  - assert (E : l1 ++ l2
                = take (length l1 - n) l1 ++ (drop (length l1 - n) l1 ++ l2)).
    { rewrite app_assoc, take_drop. reflexivity. }
    rewrite E.
    replace (length l1 + length l2 - n)%nat
      with (length (take (length l1 - n) l1) + length l2)%nat
      by (rewrite length_take; lia).
    rewrite drop_app_add. f_equal. lia.
Qed.

(** *** Decoded text holds scalar values only *)

Ltac bool_to_prop :=
  unfold is_cont in *;
  repeat match goal with
    | H : (_ && _) = true |- _ => apply andb_true_iff in H as [? ?]
    | H : negb _ = true |- _ => apply negb_true_iff in H
    | H : (_ && _) = false |- _ => apply andb_false_iff in H as [? | ?]
    | H : (_ <? _) = true |- _ => apply N.ltb_lt in H
    | H : (_ <? _) = false |- _ => apply N.ltb_ge in H
    | H : (_ <=? _) = true |- _ => apply N.leb_le in H
    | H : (_ <=? _) = false |- _ => apply N.leb_gt in H
    | H : (_ =? _) = true |- _ => apply N.eqb_eq in H
    | H : (_ =? _) = false |- _ => apply N.eqb_neq in H
    end.

Lemma decode_go_scalar (n : nat) :
  forall bs, (length bs <= n)%nat -> Forall scalar_value (decode_go bs).
Proof.
  induction n as [|n IH]; intros bs Hlen.
  - destruct bs; [constructor | simpl in Hlen; lia].
  - destruct bs as [|b1 r1]; [constructor|]. cbn [decode_go].
    repeat match goal with
      | |- Forall _ [] => constructor
      | |- Forall _ (decode_go _) => apply IH; simpl in *; lia
      | |- Forall _ (_ :: _) => constructor
      | |- Forall _ (if ?c then _ else _) => destruct c eqn:?
      | |- Forall _ (match ?l with [] => _ | _ :: _ => _ end) => destruct l
      | |- scalar_value _ => unfold scalar_value; bool_to_prop; lia
      end.
Qed.

Lemma decode_ignore_scalar (b : bytes) : Forall scalar_value (decode_ignore b).
Proof. apply (decode_go_scalar (length (Byte.to_N <$> b))). lia. Qed.

Lemma lstrip_Forall (P : char -> Prop) (s : str) :
  Forall P s -> Forall P (lstrip s).
Proof.
  induction 1 as [|c s Hc Hs IH]; cbn [lstrip]; [constructor|].
  destruct (isspace c); [exact IH | constructor; assumption].
Qed.

Lemma strip_Forall (P : char -> Prop) (s : str) :
  Forall P s -> Forall P (strip s).
Proof.
  intros H. unfold strip, rstrip.
  apply Forall_rev, lstrip_Forall, Forall_rev, lstrip_Forall, H.
Qed.

Lemma py_scalar (s : string) : Forall scalar_value (py s).
Proof.
  unfold py. apply Forall_fmap, Forall_true. intros a. unfold scalar_value.
  simpl. pose proof (N_ascii_bounded a). lia.
Qed.

(** The text handed to [encode] at line 126 holds scalar values only, so
    the encoding does not raise. *)
Lemma error_message_scalar (p : process) :
  Forall scalar_value (error_message (stderr_text p)).
Proof.
  assert (HLF : scalar_value LF) by (unfold scalar_value, LF; lia).
  unfold error_message, stderr_text.
  apply Forall_app_2; [repeat constructor; exact HLF|].
  apply Forall_app_2; [apply py_scalar|].
  apply Forall_app_2; [repeat constructor; exact HLF|].
  apply Forall_app_2; [|repeat constructor; exact HLF].
  apply strip_Forall, decode_ignore_scalar.
Qed.

(** *** Stripping *)

Lemma lstrip_suffix (s : str) : exists pre, s = pre ++ lstrip s.
Proof.
  induction s as [|c s [pre IH]]; [exists []; reflexivity|].
  cbn [lstrip]. destruct (isspace c).
  - exists (c :: pre). simpl. f_equal. exact IH.
  - exists []. reflexivity.
Qed.

Lemma rstrip_prefix (s : str) : exists post, s = rstrip s ++ post.
Proof.
  unfold rstrip. destruct (lstrip_suffix (rev s)) as [pre H].
  exists (rev pre). rewrite <- (rev_involutive s), H, rev_app_distr at 1.
  reflexivity.
Qed.

Lemma lstrip_head (s : str) :
  match lstrip s with [] => True | c :: _ => isspace c = false end.
Proof.
  induction s as [|c s IH]; [exact I|]. cbn [lstrip].
  destruct (isspace c) eqn:E; [exact IH | exact E].
Qed.

Lemma lstrip_fixed (s : str) :
  match s with [] => True | c :: _ => isspace c = false end -> lstrip s = s.
Proof. destruct s as [|c s]; [reflexivity|]. cbn [lstrip]. intros ->. reflexivity. Qed.

Lemma lstrip_idem (s : str) : lstrip (lstrip s) = lstrip s.
Proof. apply lstrip_fixed, lstrip_head. Qed.

Lemma rstrip_idem (s : str) : rstrip (rstrip s) = rstrip s.
Proof. unfold rstrip. rewrite rev_involutive, lstrip_idem. reflexivity. Qed.

Lemma strip_trimmed (s : str) : trimmed (strip s).
Proof.
  unfold trimmed, strip. split; [|apply rstrip_idem].
  apply lstrip_fixed.
  destruct (rstrip_prefix (lstrip s)) as [post H].
  pose proof (lstrip_head s) as Hh. rewrite H in Hh.
  destruct (rstrip (lstrip s)); [exact I | exact Hh].
Qed.

Lemma trimmed_strip (s : str) : trimmed s -> strip s = s.
Proof. intros [Hl Hr]. unfold strip. rewrite Hl. exact Hr. Qed.

Lemma strip_idem (s : str) : strip (strip s) = strip s.
Proof. apply trimmed_strip, strip_trimmed. Qed.


(** *** The UTF-8 round trip *)

Lemma to_N_byte_of (n : N) : n < 256 -> Byte.to_N (byte_of n) = n.
Proof.
  intros H. unfold byte_of. destruct (Byte.of_N n) as [b|] eqn:E.
  - apply Byte.to_of_N. exact E.
  - apply Byte.of_N_None_iff in E. lia.
Qed.

Ltac split_by_64 x q r :=
  pose proof (N.div_mod' x 64) as ?H;
  pose proof (N.mod_lt x 64 ltac:(discriminate)) as ?H;
  set (q := x / 64) in *; set (r := x mod 64) in *;
  clearbody q r.

Ltac decide_branches :=
  repeat match goal with
    | |- context [if ?b then _ else _] =>
        let E := fresh "E" in
        destruct b eqn:E;
        repeat match goal with
          | H : negb _ = false |- _ => apply negb_false_iff in H
          | _ => progress bool_to_prop
          end;
        try (exfalso; lia)
    end.

Lemma decode_encode_char (c : char) (rest : list N) :
  scalar_value c ->
  decode_go ((Byte.to_N <$> encode_char c) ++ rest) = c :: decode_go rest.
Proof.
  intros [Hsur Hmax]. unfold encode_char.
  destruct (c <? 128) eqn:E1; bool_to_prop.
  { cbn [fmap list_fmap app]. rewrite to_N_byte_of by lia.
    cbn [decode_go]. decide_branches; reflexivity. }
  destruct (c <? 2048) eqn:E2; bool_to_prop.
  { split_by_64 c q1 r1.
    cbn [fmap list_fmap app]. rewrite !to_N_byte_of by lia.
    cbn [decode_go]. decide_branches; f_equal; lia. }
  destruct (c <? 65536) eqn:E3; bool_to_prop.
  { replace (c / 4096) with (c / 64 / 64)
      by (rewrite N.Div0.div_div; reflexivity).
    split_by_64 c q1 r1. split_by_64 q1 q2 r2.
    cbn [fmap list_fmap app]. rewrite !to_N_byte_of by lia.
    cbn [decode_go]. decide_branches; f_equal; lia. }
  replace (c / 262144) with (c / 64 / 64 / 64)
    by (rewrite !N.Div0.div_div; reflexivity).
  replace (c / 4096) with (c / 64 / 64)
    by (rewrite N.Div0.div_div; reflexivity).
  split_by_64 c q1 r1. split_by_64 q1 q2 r2. split_by_64 q2 q3 r3.
  cbn [fmap list_fmap app]. rewrite !to_N_byte_of by lia.
  cbn [decode_go]. decide_branches; f_equal; lia.
Qed.

Lemma decode_encode_scalar (s : str) :
  Forall scalar_value s -> decode_ignore (encode s) = s.
Proof.
  unfold decode_ignore, encode. induction 1 as [|c s Hc Hs IH]; [reflexivity|].
  cbn [mbind list_bind]. change (mbind encode_char s) with (s ≫= encode_char).
  rewrite fmap_app, (decode_encode_char c _ Hc), IH. reflexivity.
Qed.

(** *** [split] and the last occurrence of the separator *)

Lemma border_free_spec (sep done rest : str) :
  border_free sep = true -> sep = done ++ rest -> done <> [] -> rest <> [] ->
  startswith sep rest = false.
Proof.
  intros Hbf Hsep Hd Hr. unfold border_free in Hbf.
  rewrite forallb_forall in Hbf.
  assert (Hk : In (length done) (seq 1 (length sep - 1))).
  { apply in_seq. rewrite Hsep, length_app.
    destruct done; [congruence|]. destruct rest; [congruence|]. simpl. lia. }
  specialize (Hbf _ Hk). rewrite Hsep in Hbf at 2.
  rewrite drop_app_length in Hbf. apply negb_true_iff in Hbf. exact Hbf.
Qed.

Lemma no_match_inside (sep done rest r : str) :
  border_free sep = true -> sep = done ++ rest -> done <> [] -> rest <> [] ->
  startswith (rest ++ r) sep = false.
Proof.
  intros Hbf Hsep Hd Hr.
  destruct (startswith (rest ++ r) sep) eqn:E; [exfalso|reflexivity].
  apply startswith_true in E.
  assert (Hlen : (length rest <= length sep)%nat).
  { rewrite Hsep, length_app. lia. }
  assert (Hpre : rest = take (length rest) sep).
  { apply (f_equal (take (length rest))) in E.
    rewrite take_app_length in E. rewrite take_app_le in E by exact Hlen.
    exact E. }
  pose proof (border_free_spec sep done rest Hbf Hsep Hd Hr) as Hno.
  rewrite <- (take_drop (length rest) sep), <- Hpre, startswith_app in Hno.
  discriminate.
Qed.

Lemma split_go_skip (sep rest cur s : str) :
  split_go sep (length rest) cur (rest ++ s) = split_go sep 0 cur s.
Proof. induction rest as [|c rest IH]; [reflexivity|exact IH]. Qed.

Lemma split_go_nonempty (sep : str) (s : str) :
  forall skip cur, split_go sep skip cur s <> [].
Proof.
  induction s as [|c s IH]; intros skip cur; cbn [split_go]; [discriminate|].
  destruct skip; [|apply IH].
  destruct (startswith (c :: s) sep); [discriminate|apply IH].
Qed.

Lemma last_cons_nonempty {A} (x d : A) (l : list A) :
  l <> [] -> List.last (x :: l) d = List.last l d.
Proof. destruct l; [congruence|reflexivity]. Qed.

Lemma after_last_inside (sep : str) (r : str) :
  border_free sep = true ->
  forall rest done, sep = done ++ rest -> done <> [] ->
    after_last sep (rest ++ r) = after_last sep r.
Proof.
  intros Hbf. induction rest as [|c rest IH]; intros done Hsep Hd;
    [reflexivity|].
  change ((c :: rest) ++ r) with (c :: (rest ++ r)).
  cbn [after_last].
  rewrite (IH (done ++ [c])).
  - destruct (after_last sep r); [reflexivity|].
    change (c :: rest ++ r) with ((c :: rest) ++ r).
    rewrite (no_match_inside sep done (c :: rest) r Hbf Hsep Hd); [reflexivity|].
    discriminate.
  - rewrite <- app_assoc. exact Hsep.
  - destruct done; discriminate.
Qed.

(** For a separator without borders, the last piece of [split] is the text
    after the last occurrence of the separator, or the whole text when the
    separator does not occur. *)
Lemma split_go_last (sep : str) :
  border_free sep = true -> sep <> [] ->
  forall n s cur, (length s <= n)%nat ->
    List.last (split_go sep 0 cur s) []
    = default (cur ++ s) (after_last sep s).
Proof.
  intros Hbf Hne. induction n as [|n IH]; intros s cur Hlen.
  - destruct s; [|simpl in Hlen; lia]. simpl. rewrite app_nil_r. reflexivity.
  - destruct s as [|c s]; [simpl; rewrite app_nil_r; reflexivity|].
    cbn [split_go after_last].
    destruct (startswith (c :: s) sep) eqn:E.
    + pose proof (startswith_true _ _ E) as Hs.
      destruct sep as [|x tl]; [congruence|].
      cbn [length drop app] in Hs. injection Hs as Hx Hs.
      remember (drop (length tl) s) as r eqn:Hr. clear Hr. subst x s.
      replace (length (c :: tl) - 1)%nat with (length tl) by (simpl; lia).
      rewrite split_go_skip.
      rewrite last_cons_nonempty by apply split_go_nonempty.
      rewrite IH by (simpl in Hlen; rewrite length_app in Hlen; lia).
      rewrite (after_last_inside (c :: tl) _ Hbf tl [c]);
        [|reflexivity|discriminate].
      cbn [length drop]. rewrite drop_app_length.
      destruct (after_last (c :: tl) r); reflexivity.
    + rewrite IH by (simpl in Hlen; lia).
      rewrite <- app_assoc.
      destruct (after_last sep s); reflexivity.
Qed.

Lemma split_last_piece (text : str) :
  last_piece (split text ASSISTANT_MARKER)
  = default text (after_last ASSISTANT_MARKER text).
Proof.
  unfold last_piece, split.
  apply (split_go_last ASSISTANT_MARKER eq_refl ltac:(discriminate)
           (length text) text [] (le_n _)).
Qed.

(** ** Paths *)

Lemma entry_name_app (dir name : str) :
  forallb (fun c => negb (c =? 47)) name = true ->
  entry_name dir (dir ++ 47 :: name) = Some name.
Proof.
  intros H. induction dir as [|d dir IH]; simpl.
  - rewrite H. reflexivity.
  - rewrite N.eqb_refl. exact IH.
Qed.

Lemma entry_name_nil (c : char) (name : str) :
  entry_name [] (c :: name)
  = if c =? 47
    then if forallb (fun c => negb (c =? 47)) name then Some name else None
    else None.
Proof.
  destruct c as [|p]; [reflexivity|].
  do 6 (try (destruct p as [p|p|]; try reflexivity)).
Qed.

Lemma entry_name_Some (dir path name : str) :
  entry_name dir path = Some name -> path = dir ++ 47 :: name.
Proof.
  revert path. induction dir as [|d dir IH]; intros path H.
  - destruct path as [|c path]; [discriminate|].
    rewrite entry_name_nil in H.
    destruct (c =? 47) eqn:E; [|discriminate].
    apply N.eqb_eq in E. subst c.
    destruct (forallb _ path); [|discriminate]. simpl. congruence.
  - destruct path as [|c path]; [discriminate|]. simpl in H.
    destruct (c =? d) eqn:E; [|discriminate].
    apply N.eqb_eq in E. subst. simpl. f_equal. apply IH, H.
Qed.

Lemma chat_id_char_not_sep (c : char) : chat_id_char c = true -> (c =? 47) = false.
Proof.
  unfold chat_id_char. intros H. apply N.eqb_neq. intros ->.
  vm_compute in H. discriminate.
Qed.

Lemma history_path_of_accepted (id : str) :
  SafeChatID_ok id = true ->
  get_sanitized_history_path id = HISTORY_DIR ++ py "/" ++ id ++ py ".json".
Proof.
  unfold SafeChatID_ok. intros H.
  apply andb_true_iff in H as [H Hall]. apply andb_true_iff in H as [Hmin _].
  destruct id as [|c id]; [discriminate|].
  simpl in Hall. apply andb_true_iff in Hall as [Hc _].
  unfold get_sanitized_history_path, os_path_join.
  change (startswith ((c :: id) ++ py ".json") (py "/"))
    with ((c =? 47) && true).
  rewrite (chat_id_char_not_sep c Hc). reflexivity.
Qed.

Lemma accepted_name_no_sep (id : str) :
  SafeChatID_ok id = true ->
  forallb (fun c => negb (c =? 47)) (id ++ py ".json") = true.
Proof.
  unfold SafeChatID_ok. intros H. apply andb_true_iff in H as [_ Hall].
  rewrite forallb_app. apply andb_true_iff. split; [|reflexivity].
  rewrite forallb_forall in *. intros c Hc.
  rewrite (chat_id_char_not_sep c (Hall c Hc)). reflexivity.
Qed.

Lemma history_path_inside (id : str) :
  SafeChatID_ok id = true ->
  inside_dir HISTORY_DIR (get_sanitized_history_path id) = true.
Proof.
  intros H. rewrite (history_path_of_accepted id H).
  unfold inside_dir. change (py "/" ++ id ++ py ".json") with (47 :: id ++ py ".json").
  rewrite (entry_name_app _ _ (accepted_name_no_sep id H)).
  unfold SafeChatID_ok in H.
  apply andb_true_iff in H as [H _]. apply andb_true_iff in H as [Hmin _].
  apply Nat.leb_le in Hmin.
  assert (Hlen : (6 <= length (id ++ py ".json"))%nat).
  { rewrite length_app. simpl. lia. }
  rewrite !bool_decide_eq_false_2; [reflexivity | | | ];
    intros E; rewrite E in Hlen; simpl in Hlen; lia.
Qed.

(** C9: the history path of every accepted chat id is an entry of the
    history directory itself, with no separator in its name and a name that
    is neither [.] nor [..]; a load for that id reads that path only, and a
    save or a delete for it leaves every path that lies outside the
    directory as it was. *)
Theorem accepted_id_path_inside_history_dir (id : str) :
  SafeChatID_ok id = true ->
  get_sanitized_history_path id = HISTORY_DIR ++ py "/" ++ id ++ py ".json"
  /\ entry_name HISTORY_DIR (get_sanitized_history_path id) = Some (id ++ py ".json")
  /\ (47 ∉ id ++ py ".json")
  /\ inside_dir HISTORY_DIR (get_sanitized_history_path id) = true
  /\ (forall fs fs' : gmap (list N) file_content,
        fs !! get_sanitized_history_path id = fs' !! get_sanitized_history_path id ->
        load_chat_data fs id = load_chat_data fs' id)
  /\ (forall disk (fs : gmap (list N) file_content) data p,
        inside_dir HISTORY_DIR p = false ->
        (save_chat_data disk fs id data).1 !! p = fs !! p)
  /\ (forall w p,
        inside_dir HISTORY_DIR p = false ->
        store (delete_history w id).1 !! p = store w !! p).
Proof.
  intros H.
  pose proof (history_path_of_accepted id H) as Hpath.
  pose proof (accepted_name_no_sep id H) as Hsep.
  pose proof (history_path_inside id H) as Hin.
  assert (Hne : forall p, inside_dir HISTORY_DIR p = false ->
                          get_sanitized_history_path id <> p).
  { intros p Hp E. rewrite E in Hin. congruence. }
  split; [exact Hpath|]. split.
  { rewrite Hpath. apply (entry_name_app HISTORY_DIR _ Hsep). }
  split.
  { intros Hel. rewrite forallb_forall in Hsep.
    apply list_elem_of_In in Hel. specialize (Hsep _ Hel). discriminate. }
  split; [exact Hin|]. split.
  { intros fs fs' E. unfold load_chat_data, os_path_exists. rewrite E.
    reflexivity. }
  split.
  - intros disk fs data p Hp. specialize (Hne p Hp).
    unfold save_chat_data. destruct disk; simpl;
      rewrite ?lookup_insert_ne by exact Hne; reflexivity.
  - intros w p Hp. specialize (Hne p Hp).
    unfold delete_history.
    destruct (negb _); [reflexivity|].
    destruct (disk (touch_lock w id)); simpl;
      rewrite ?lookup_delete_ne by exact Hne; reflexivity.
Qed.

Lemma accepted_id_path_inside_history_dir_witness :
  get_sanitized_history_path (py "abc") = py "chat_history/abc.json"
  /\ inside_dir HISTORY_DIR (get_sanitized_history_path (py "abc")) = true.
Proof.
  pose proof (accepted_id_path_inside_history_dir (py "abc") eq_refl) as H.
  split; [apply H | apply H].
Defined.

(** ** The prompt *)

(** C3, as stated, fails: on an empty store the dry run for message
    [hello] does not answer [Human: hello\nAssistant:]; the labels of the
    code carry a [###] prefix. *)
Lemma prompt_is_not_the_unprefixed_template :
  (chat world0 (req "abc" "hello") true).2
  = Ok (PlainTextResponse (py "### Human: hello" ++ [LF] ++ py "### Assistant:"))
  /\ full_prompt empty_chat_data (py "hello")
     <> spec_prompt (py "Human:") (py "Assistant:") None [] (py "hello")
  /\ spec_prompt (py "Human:") (py "Assistant:") None [] (py "hello")
     = py "Human: hello" ++ [LF] ++ py "Assistant:".
Proof.
  split; [vm_compute; reflexivity|].
  split; [|vm_compute; reflexivity].
  intros H. vm_compute in H. discriminate H.
Qed.

(** C3, amended: the prompt is the newline-join of the system prompt, when
    one is stored and not empty, one segment [### Human: <user>] /
    [### Assistant: <assistant>] per turn of the window, and a last segment
    [### Human: <message>] / [### Assistant:]. *)
Theorem full_prompt_follows_template (d : chat_data) (m : str) :
  full_prompt d m
  = spec_prompt (py "### Human:") (py "### Assistant:")
      (match system_prompt d with Some (c :: s) => Some (c :: s) | _ => None end)
      (last_n MAX_HISTORY_MESSAGES (default [] (history d))) m
  /\ full_prompt empty_chat_data (py "hello")
     = py "### Human: hello" ++ [LF] ++ py "### Assistant:"
  /\ full_prompt record_hi_hey (py "how are you")
     = py "Be terse." ++ [LF] ++ py "### Human: hi" ++ [LF]
       ++ py "### Assistant: hey" ++ [LF] ++ py "### Human: how are you"
       ++ [LF] ++ py "### Assistant:".
Proof.
  split; [|split; vm_compute; reflexivity].
  unfold full_prompt, spec_prompt, prompt_parts.
  destruct (system_prompt d) as [[|c s]|]; reflexivity.
Qed.

(** ** The store *)

(** C4, as stated, fails: a record file that is not valid JSON makes
    [load_chat_data] raise; it does not return the empty record. *)
Lemma load_raises_on_corrupt_record :
  load_chat_data (store_abc Unparseable) (py "abc") = Raise JSONDecodeError
  /\ load_chat_data (store_abc Unparseable) (py "abc") <> Ok empty_chat_data.
Proof. split; [vm_compute; reflexivity | vm_compute; discriminate]. Qed.

Lemma load_chat_data_lookup (fs : gmap (list N) file_content) (id : str) :
  load_chat_data fs id
  = match fs !! get_sanitized_history_path id with
    | None => Ok empty_chat_data
    | Some (Document d) => Ok d
    | Some Unparseable => Raise JSONDecodeError
    end.
Proof.
  unfold load_chat_data, os_path_exists.
  destruct (fs !! get_sanitized_history_path id) as [[d|]|]; reflexivity.
Qed.

(** C4, amended: [load_chat_data] returns the empty record when the id has
    no file and the stored record when the file holds one; when the file
    does not parse it raises the decoding error, which the dry run and the
    history request pass on to their caller and which ends the generator
    at its first step. *)
Theorem load_chat_data_cases (w : world) (chat_request : ChatRequest)
    (llama_cli : list str -> result process) :
  match store w !! get_sanitized_history_path (chat_id chat_request) with
  | None => load_chat_data (store w) (chat_id chat_request) = Ok empty_chat_data
  | Some (Document d) => load_chat_data (store w) (chat_id chat_request) = Ok d
  | Some Unparseable =>
      load_chat_data (store w) (chat_id chat_request) = Raise JSONDecodeError
      /\ chat w chat_request true = (w, Raise JSONDecodeError)
      /\ get_history w (chat_id chat_request) = (w, Raise JSONDecodeError)
      /\ (step llama_cli chat_request w At_lock1).1.2 = Raised JSONDecodeError
  end.
Proof.
  pose proof (load_chat_data_lookup (store w) (chat_id chat_request)) as H.
  unfold chat, get_history, os_path_exists. cbn [step].
  change (store (touch_lock w (chat_id chat_request))) with (store w).
  destruct (store w !! get_sanitized_history_path (chat_id chat_request))
    as [[d|]|]; try exact H.
  rewrite H. cbn [negb andb fst snd]. auto.
Qed.

Lemma load_after_insert (fs : gmap (list N) file_content) (id : str) (c : file_content) :
  load_chat_data (<[get_sanitized_history_path id := c]> fs) id
  = match c with Document d => Ok d | Unparseable => Raise JSONDecodeError end.
Proof. rewrite load_chat_data_lookup, lookup_insert_eq. reflexivity. Qed.

(** C7, as stated, fails: when the write fails after the file was opened,
    a later load sees neither the old record nor the new one. *)
Lemma failed_write_loses_the_old_record :
  let fs := (save_chat_data Write_fails (store_abc (Document record_hi_hey))
               (py "abc") empty_chat_data).1 in
  load_chat_data (store_abc (Document record_hi_hey)) (py "abc") = Ok record_hi_hey
  /\ load_chat_data fs (py "abc") <> Ok record_hi_hey
  /\ load_chat_data fs (py "abc") <> Ok empty_chat_data.
Proof.
  split; [vm_compute; reflexivity|].
  split; vm_compute; discriminate.
Qed.

(** C7, amended: a save that completes leaves the complete new record; a
    save whose [open] fails leaves the file as it was; a save that fails
    after the file was opened leaves a file that no longer parses, so the
    next load raises. *)
Theorem save_chat_data_outcomes (fs : gmap (list N) file_content) (id : str)
    (data : chat_data) :
  ((save_chat_data Healthy fs id data).2 = Ok tt
   /\ load_chat_data (save_chat_data Healthy fs id data).1 id = Ok data)
  /\ save_chat_data Open_fails fs id data = (fs, Raise OSError)
  /\ ((save_chat_data Write_fails fs id data).2 = Raise OSError
      /\ load_chat_data (save_chat_data Write_fails fs id data).1 id
         = Raise JSONDecodeError).
Proof.
  unfold save_chat_data. simpl. rewrite !load_after_insert. auto.
Qed.

(** ** Admission of new sessions *)

Lemma session_count_le_listdir (fs : gmap (list N) file_content) :
  (session_count fs <= length (os_listdir fs HISTORY_DIR))%nat.
Proof. unfold session_count, session_files. apply length_filter. Qed.

(** C6: with as many stored sessions as the maximum, a chat request for an
    id that has no record is answered with status 429 and the world is left
    as it was, session count included; a request for an id that has a
    record is not answered with 429. *)
Theorem cap_enforced (w : world) (chat_request : ChatRequest) (dry_run : bool) :
  session_count (store w) = MAX_TOTAL_CHATS ->
  (os_path_exists (store w) (get_sanitized_history_path (chat_id chat_request)) = false ->
   chat w chat_request dry_run = (w, Raise (HTTPException 429))
   /\ session_count (store (chat w chat_request dry_run).1) = MAX_TOTAL_CHATS)
  /\ (os_path_exists (store w) (get_sanitized_history_path (chat_id chat_request)) = true ->
      (chat w chat_request dry_run).1 = w
      /\ (chat w chat_request dry_run).2 <> Raise (HTTPException 429)).
Proof.
  intros Hfull. pose proof (session_count_le_listdir (store w)) as Hle.
  rewrite Hfull in Hle. apply Nat.leb_le in Hle.
  unfold chat. split; intros Hex; rewrite Hex; cbn [negb andb fst snd].
  - rewrite Hle. cbn [fst store]. auto.
  - destruct dry_run; [|split; [reflexivity|cbn [snd]; discriminate]].
    rewrite load_chat_data_lookup.
    destruct (store w !! _) as [[d|]|]; split; cbn [fst snd];
      try reflexivity; discriminate.
Qed.

Lemma cap_enforced_witness :
  chat full_world (req "zz" "hi") false = (full_world, Raise (HTTPException 429))
  /\ (chat full_world (req "aa" "hi") false).2 <> Raise (HTTPException 429).
Proof.
  split.
  - apply (cap_enforced full_world (req "zz" "hi") false);
      vm_compute; reflexivity.
  - apply (cap_enforced full_world (req "aa" "hi") false);
      vm_compute; reflexivity.
Defined.

(** ** The generator *)

Section Generator.

Variable llama_cli : list str -> result process.
Variable chat_request : ChatRequest.

Local Abbreviation gstep := (step llama_cli chat_request).
Local Abbreviation grun := (run llama_cli chat_request).

Lemma run_S (n : nat) (w : world) (g : gen) :
  grun (S n) w g
  = let '(w1, g1, o) := gstep w g in
    let '(w2, g2, out) := grun n w1 g1 in
    (w2, g2, chunks_of o ++ out).
Proof. reflexivity. Qed.

Lemma run_idle (n : nat) (w : world) (g : gen) :
  finished g = true -> grun n w g = (w, g, []).
Proof.
  intros H. induction n as [|n IH]; [reflexivity|].
  rewrite run_S. destruct g; try discriminate; cbn [step];
    rewrite IH; reflexivity.
Qed.

Lemma run_add (n m : nat) (w : world) (g : gen) :
  grun (n + m) w g
  = let '(w1, g1, o1) := grun n w g in
    let '(w2, g2, o2) := grun m w1 g1 in
    (w2, g2, o1 ++ o2).
Proof.
  revert w g. induction n as [|n IH]; intros w g.
  - cbn [Nat.add run]. destruct (grun m w g) as [[w2 g2] o2]. reflexivity.
  - change (S n + m)%nat with (S (n + m)). rewrite !run_S.
    destruct (gstep w g) as [[w1 g1] o]. rewrite IH.
    destruct (grun n w1 g1) as [[w2 g2] o2].
    destruct (grun m w2 g2) as [[w3 g3] o3].
    rewrite app_assoc. reflexivity.
Qed.

(** Once the generator has finished, more steps change nothing. *)
Lemma run_extend (n m : nat) (w w' : world) (g g' : gen) (out : list bytes) :
  grun n w g = (w', g', out) -> finished g' = true -> (n <= m)%nat ->
  grun m w g = (w', g', out).
Proof.
  intros Hrun Hfin Hle. replace m with (n + (m - n))%nat by lia.
  rewrite run_add, Hrun, run_idle by exact Hfin.
  rewrite app_nil_r. reflexivity.
Qed.

Lemma at_eof_empty (p : process) : at_eof p = true -> stdout p = [].
Proof.
  unfold at_eof. intros H. apply andb_true_iff in H as [_ Hlen].
  apply Nat.eqb_eq in Hlen. destruct (stdout p); [reflexivity|discriminate].
Qed.

Lemma drained_empty (p : process) : stdout p = [] -> drained p = p.
Proof. destruct p; unfold drained, with_stdout; simpl; intros ->; reflexivity. Qed.

(** The reading loop: from the [read] of line 116 the generator yields the
    remaining bytes one by one and, when the child closes its output,
    arrives at [process.wait()] with all of them accumulated, the world
    untouched. *)
Lemma read_loop (l : bytes) :
  forall (p : process) (full : bytes) (w : world),
    stdout p = l -> stdout_closes p = true ->
    exists n, (n <= 2 * length l + 1)%nat
      /\ grun n w (At_read p full)
         = (w, At_wait (drained p) (full ++ l), tokens l).
Proof.
  induction l as [|b l IH]; intros p full w Hp Hc.
  - exists 1%nat. split; [simpl; lia|].
    rewrite run_S. cbn [step]. unfold read1. rewrite Hp, Hc.
    cbn [run chunks_of]. rewrite drained_empty, (app_nil_r full) by exact Hp.
    reflexivity.
  - set (p' := with_stdout p l).
    assert (Hstep : gstep w (At_read p full)
                    = (w, At_yield_token p' (full ++ [b]), Some [b])).
    { cbn [step]. unfold read1. rewrite Hp. reflexivity. }
    assert (Hd : drained p' = drained p) by reflexivity.
    destruct (at_eof p') eqn:Heof.
    + (* the end of the output is known right after the last byte *)
      assert (Hl : l = []) by exact (at_eof_empty p' Heof).
      subst l. exists 2%nat. split; [simpl; lia|].
      rewrite run_S, Hstep, run_S. cbn [step]. unfold loop_head.
      rewrite Heof. cbn [run chunks_of].
      rewrite <- Hd, drained_empty by reflexivity. reflexivity.
    + destruct (IH p' (full ++ [b]) w eq_refl Hc) as (n & Hn & Hrun).
      exists (S (S n)). split; [simpl in *; lia|].
      rewrite run_S, Hstep, run_S. cbn [step]. unfold loop_head.
      rewrite Heof, Hrun, Hd, <- app_assoc. reflexivity.
Qed.

(** The same from the loop head, where [at_eof] is tested first. *)
Lemma loop_head_to_wait (p : process) (full : bytes) (w : world) :
  stdout_closes p = true ->
  exists n, (n <= 2 * length (stdout p) + 1)%nat
    /\ grun n w (loop_head p full)
       = (w, At_wait (drained p) (full ++ stdout p), tokens (stdout p)).
Proof.
  intros Hc. unfold loop_head. destruct (at_eof p) eqn:Heof.
  - pose proof (at_eof_empty p Heof) as Hl.
    exists 0%nat. split; [lia|].
    rewrite Hl, (app_nil_r full), drained_empty by exact Hl. reflexivity.
  - apply read_loop; [reflexivity | exact Hc].
Qed.

(** A child that does not close its output keeps the generator in the
    reading loop for ever, and one that is not reaped keeps it at
    [process.wait()]. *)
Lemma read_never_returns (n : nat) (p : process) (full : bytes) (w : world) :
  stdout p = [] -> stdout_closes p = false ->
  grun n w (At_read p full) = (w, At_read p full, []).
Proof.
  intros Hp Hc. induction n as [|n IH]; [reflexivity|].
  rewrite run_S. cbn [step]. unfold read1. rewrite Hp, Hc, IH. reflexivity.
Qed.

Lemma wait_never_returns (n : nat) (p : process) (full : bytes) (w : world) :
  wait_returns p = false ->
  grun n w (At_wait p full) = (w, At_wait p full, []).
Proof.
  intros Hw. induction n as [|n IH]; [reflexivity|].
  rewrite run_S. cbn [step]. rewrite Hw, IH. reflexivity.
Qed.

(** After [process.wait()]: the three ways the generator ends. *)
Lemma wait_failed (p : process) (full : bytes) (w : world) :
  wait_returns p = true -> returncode p <> 0%Z ->
  grun 3 w (At_wait p full)
  = (set_child w Child_reaped, Returned,
     [encode (error_message (stderr_text p))]).
Proof.
  intros Hw Hrc. apply Z.eqb_neq in Hrc.
  rewrite run_S. cbn [step]. rewrite Hw, Hrc. cbn [negb].
  rewrite run_S. cbn [step]. rewrite run_S. cbn [step]. reflexivity.
Qed.

Lemma wait_empty (p : process) (full : bytes) (w : world) :
  wait_returns p = true ->
  returncode p = 0%Z -> assistant_response full = [] ->
  grun 1 w (At_wait p full) = (set_child w Child_reaped, Returned, []).
Proof.
  intros Hw Hrc Ha. apply Z.eqb_eq in Hrc.
  rewrite run_S. cbn [step]. rewrite Hw, Hrc, Ha. reflexivity.
Qed.

Lemma wait_success (p : process) (full : bytes) (w : world) (a : str) :
  wait_returns p = true ->
  returncode p = 0%Z -> assistant_response full = a -> a <> [] ->
  grun 2 w (At_wait p full)
  = ((finalize (set_child w Child_reaped) chat_request a).1,
     gen_of_result (finalize (set_child w Child_reaped) chat_request a).2, []).
Proof.
  intros Hw Hrc Ha Hne. apply Z.eqb_eq in Hrc.
  rewrite run_S. cbn [step]. rewrite Hw, Hrc, Ha. cbn [negb].
  destruct a as [|c s]; [congruence|].
  rewrite run_S. cbn [step].
  destruct (finalize _ _ _) as [w' [[]|e]]; reflexivity.
Qed.

Local Abbreviation spawned d p :=
  (create_subprocess_exec llama_cli
     (command (full_prompt d (message chat_request))) = Ok p).

Lemma completes_true (p : process) :
  completes p = true -> stdout_closes p = true /\ wait_returns p = true.
Proof. unfold completes. intros H. apply andb_true_iff in H. exact H. Qed.

(** From the start to [process.wait()], when the first load succeeds, the
    child is spawned and it closes its output. *)
Lemma start_to_wait (w : world) (d : chat_data) (p : process) :
  load_chat_data (store w) (chat_id chat_request) = Ok d ->
  spawned d p -> stdout_closes p = true ->
  exists n, (n <= 2 * length (stdout p) + 3)%nat
    /\ grun n w At_lock1
       = (set_child (touch_lock w (chat_id chat_request)) Child_running,
          At_wait (drained p) (stdout p), tokens (stdout p)).
Proof.
  intros Hload Hp Hc.
  destruct (loop_head_to_wait p []
              (set_child (touch_lock w (chat_id chat_request)) Child_running) Hc)
    as (n & Hn & Hrun).
  exists (S (S n)). split; [lia|].
  rewrite run_S. cbn [step].
  change (store (touch_lock w (chat_id chat_request))) with (store w).
  rewrite Hload. rewrite run_S. cbn [step]. rewrite Hp, Hrun. reflexivity.
Qed.

Lemma stream_unfold (w : world) (d : chat_data) (p : process) :
  load_chat_data (store w) (chat_id chat_request) = Ok d ->
  spawned d p ->
  stream_llama_response llama_cli chat_request w
  = grun (1 + steps_bound p) w At_lock1.
Proof.
  intros Hload Hp. unfold stream_llama_response. cbn [step].
  change (store (touch_lock w (chat_id chat_request))) with (store w).
  rewrite Hload, Hp. reflexivity.
Qed.

(** A run that has reached [process.wait()] within the bound and ends
    within three more steps is what the consumer sees. *)
Lemma stream_from_wait (w w1 w2 : world) (d : chat_data) (p : process)
    (g2 : gen) (full : bytes) (p1 : process) (out1 out2 : list bytes)
    (n m : nat) :
  load_chat_data (store w) (chat_id chat_request) = Ok d ->
  spawned d p ->
  (n <= 2 * length (stdout p) + 3)%nat ->
  grun n w At_lock1 = (w1, At_wait p1 full, out1) ->
  (m <= 3)%nat ->
  grun m w1 (At_wait p1 full) = (w2, g2, out2) ->
  finished g2 = true ->
  stream_llama_response llama_cli chat_request w = (w2, g2, out1 ++ out2).
Proof.
  intros Hload Hp Hn Hrun1 Hm Hrun2 Hfin.
  rewrite (stream_unfold w d p Hload Hp).
  apply (run_extend (n + m)); [|exact Hfin|unfold steps_bound; lia].
  rewrite run_add, Hrun1, Hrun2. reflexivity.
Qed.

Lemma failed_generation_finishes (w : world) (d : chat_data) (p : process) :
  load_chat_data (store w) (chat_id chat_request) = Ok d ->
  spawned d p -> completes p = true ->
  returncode p <> 0%Z ->
  exists w',
    stream_llama_response llama_cli chat_request w
    = (w', Returned,
       tokens (stdout p) ++ [encode (error_message (stderr_text p))])
    /\ store w' = store w.
Proof.
  intros Hload Hp Hcomp Hrc. destruct (completes_true p Hcomp) as [Hc Hw].
  destruct (start_to_wait w d p Hload Hp Hc) as (n & Hn & Hrun).
  eexists. split.
  - eapply (stream_from_wait w _ _ d p _ _ _ _ _ n 3 Hload Hp Hn Hrun);
      [lia | exact (wait_failed (drained p) _ _ Hw Hrc) | reflexivity].
  - reflexivity.
Qed.

Lemma empty_extraction_finishes (w : world) (d : chat_data) (p : process) :
  load_chat_data (store w) (chat_id chat_request) = Ok d ->
  spawned d p -> completes p = true ->
  returncode p = 0%Z -> assistant_response (stdout p) = [] ->
  exists w',
    stream_llama_response llama_cli chat_request w
    = (w', Returned, tokens (stdout p))
    /\ store w' = store w.
Proof.
  intros Hload Hp Hcomp Hrc Hempty. destruct (completes_true p Hcomp) as [Hc Hw].
  destruct (start_to_wait w d p Hload Hp Hc) as (n & Hn & Hrun).
  eexists. split.
  - rewrite <- (app_nil_r (tokens (stdout p))).
    eapply (stream_from_wait w _ _ d p _ _ _ _ _ n 1 Hload Hp Hn Hrun);
      [lia | exact (wait_empty (drained p) _ _ Hw Hrc Hempty) | reflexivity].
  - reflexivity.
Qed.


Lemma assistant_response_spec (full : bytes) :
  assistant_response full
  = spec_assistant_response ASSISTANT_MARKER (decode_ignore full).
Proof.
  unfold assistant_response, spec_assistant_response.
  rewrite split_last_piece. reflexivity.
Qed.

(** C5, amended: on exit status zero the assistant's contribution is the
    text after the last occurrence of the marker [### Assistant:] in the
    decoded output (the whole output when the marker does not occur), with
    surrounding whitespace trimmed; when that is empty, for a child that
    has been spawned, closes its output and is reaped, the generator
    returns after the output bytes and the store is the one found before
    the request. *)
Theorem empty_extraction_is_not_persisted (w : world) (d : chat_data)
    (p : process) :
  load_chat_data (store w) (chat_id chat_request) = Ok d ->
  spawned d p -> completes p = true ->
  returncode p = 0%Z ->
  spec_assistant_response ASSISTANT_MARKER (decode_ignore (stdout p)) = [] ->
  (forall full,
     assistant_response full
     = spec_assistant_response ASSISTANT_MARKER (decode_ignore full))
  /\ exists w',
       stream_llama_response llama_cli chat_request w
       = (w', Returned, tokens (stdout p))
       /\ store w' = store w
       /\ load_chat_data (store w') (chat_id chat_request) = Ok d.
Proof.
  intros Hload Hp Hcomp Hrc Hempty. split; [exact assistant_response_spec|].
  rewrite <- assistant_response_spec in Hempty.
  destruct (empty_extraction_finishes w d p Hload Hp Hcomp Hrc Hempty)
    as (w' & Hrun & Hstore).
  exists w'. split; [exact Hrun|].
  split; [exact Hstore | rewrite Hstore; exact Hload].
Qed.

(** *** What holds while the generator has not finished *)

Lemma step_keeps_store (w : world) (g : gen) :
  finished (gstep w g).1.2 = false ->
  store (gstep w g).1.1 = store w /\ disk (gstep w g).1.1 = disk w.
Proof.
  destruct g as [|cmd|p full|p full|p full|p| |a| |e| ]; cbn [step];
    try (intros _; split; reflexivity).
  - destruct (load_chat_data _ _); intros _; split; reflexivity.
  - destruct (create_subprocess_exec _ _); intros _; split; reflexivity.
  - destruct (read1 p) as [[|b t] p']; [destruct (stdout_closes p)|];
      intros _; split; reflexivity.
  - destruct (wait_returns p); [|intros _; split; reflexivity].
    destruct (negb _); [intros _; split; reflexivity|].
    destruct (assistant_response _); intros _; split; reflexivity.
  - destruct (finalize _ _ _) as [w' [[]|e']]; discriminate.
Qed.

Lemma run_keeps_store (n : nat) :
  forall (w w' : world) (g g' : gen) (out : list bytes),
    grun n w g = (w', g', out) -> finished g' = false ->
    store w' = store w /\ disk w' = disk w.
Proof.
  induction n as [|n IH]; intros w w' g g' out Hrun Hfin.
  - injection Hrun as -> _ _. split; reflexivity.
  - rewrite run_S in Hrun.
    pose proof (step_keeps_store w g) as Hstep.
    destruct (gstep w g) as [[w1 g1] o] eqn:Es. cbn [fst snd] in Hstep.
    destruct (finished g1) eqn:Ef.
    + rewrite (run_idle n w1 g1 Ef) in Hrun. injection Hrun as _ <- _.
      congruence.
    + destruct (grun n w1 g1) as [[w2 g2] out2] eqn:Er.
      injection Hrun as <- <- _.
      destruct (IH _ _ _ _ _ Er Hfin) as [Hs Hd].
      destruct (Hstep eq_refl) as [Hs1 Hd1]. split; congruence.
Qed.

Lemma step_child_inv (w : world) (g : gen) :
  child_inv w g -> child_inv (gstep w g).1.1 (gstep w g).1.2.
Proof.
  destruct g as [|cmd|p full|p full|p full|p| |a| |e| ];
    cbn [step child_inv]; intros H; try exact I; try exact H.
  - destruct (load_chat_data _ _); exact I.
  - destruct (create_subprocess_exec _ _) as [p|e]; [|exact I].
    unfold loop_head. destruct (at_eof _); reflexivity.
  - destruct (read1 p) as [[|b t] p']; [destruct (stdout_closes p)|]; exact H.
  - unfold loop_head. destruct (at_eof _); exact H.
  - destruct (wait_returns p); [|exact H].
    destruct (negb _); [reflexivity|].
    destruct (assistant_response _); [exact I|reflexivity].
  - destruct (finalize _ _ _) as [w' [[]|e']]; exact I.
Qed.

Lemma run_child_inv (n : nat) :
  forall (w w' : world) (g g' : gen) (out : list bytes),
    grun n w g = (w', g', out) -> child_inv w g -> child_inv w' g'.
Proof.
  induction n as [|n IH]; intros w w' g g' out Hrun Hinv.
  - injection Hrun as <- <- _. exact Hinv.
  - rewrite run_S in Hrun.
    pose proof (step_child_inv w g Hinv) as Hstep.
    destruct (gstep w g) as [[w1 g1] o]. cbn [fst snd] in Hstep.
    destruct (grun n w1 g1) as [[w2 g2] out2] eqn:Er.
    injection Hrun as <- <- _. exact (IH _ _ _ _ _ Er Hstep).
Qed.

(** C8, amended: when the consumer abandons the stream at any point before
    the generator has finished, the generator is closed, nothing more of it
    runs, and the store is the one found before the request, so no turn is
    persisted; the child is left as it was, still running when the stream
    is abandoned inside the reading loop. *)
Theorem abandoned_stream_persists_nothing (w0 w1 : world) (k : nat)
    (g1 : gen) (out1 : list bytes) :
  grun k w0 At_lock1 = (w1, g1, out1) ->
  finished g1 = false ->
  (aclose w1 g1).2 = Closed
  /\ store (aclose w1 g1).1 = store w0
  /\ (forall n, grun n (aclose w1 g1).1 (aclose w1 g1).2
                = ((aclose w1 g1).1, Closed, []))
  /\ child (aclose w1 g1).1 = child w1
  /\ (forall p full,
        g1 = At_read p full \/ g1 = At_yield_token p full ->
        child (aclose w1 g1).1 = Child_running).
Proof.
  intros Hrun Hfin.
  destruct (run_keeps_store k _ _ _ _ _ Hrun Hfin) as [Hstore _].
  pose proof (run_child_inv k _ _ _ _ _ Hrun I) as Hinv.
  assert (Hclose : aclose w1 g1 = (w1, Closed)).
  { destruct g1; try reflexivity; discriminate. }
  rewrite Hclose. cbn [fst snd].
  split; [reflexivity|]. split; [exact Hstore|].
  split; [intros n; apply run_idle; reflexivity|].
  split; [reflexivity|].
  intros p full [-> | ->]; exact Hinv.
Qed.

(** *** A generation that is going to succeed *)

Lemma will_succeed_loop_head (a : str) (p : process) (full : bytes) :
  completes p = true ->
  returncode p = 0%Z -> assistant_response (full ++ stdout p) = a ->
  will_succeed llama_cli a (loop_head p full).
Proof.
  intros Hcomp Hrc Ha. unfold loop_head.
  destruct (at_eof p) eqn:E; cbn [will_succeed].
  - rewrite (at_eof_empty p E), app_nil_r in Ha. auto.
  - auto.
Qed.

Lemma will_succeed_step (a : str) (w : world) (g : gen) :
  a <> [] -> will_succeed llama_cli a g ->
  finished (gstep w g).1.2 = false ->
  will_succeed llama_cli a (gstep w g).1.2.
Proof.
  intros Hne. destruct g as [|cmd|p full|p full|p full|p| |a'| |e| ];
    cbn [will_succeed]; try (intros []; fail).
  - intros (p & Hp & Hcomp & Hrc & Ha) _. cbn [step]. rewrite Hp.
    cbn [fst snd]. apply will_succeed_loop_head; assumption.
  - intros (Hcomp & Hrc & Ha) _. cbn [step]. unfold read1.
    destruct (completes_true p Hcomp) as [Hc _].
    destruct (stdout p) as [|b rest] eqn:Eout.
    + rewrite Hc. cbn [fst snd will_succeed]. rewrite app_nil_r in Ha. auto.
    + cbn [fst snd will_succeed]. split; [exact Hcomp|].
      split; [exact Hrc|]. cbn [stdout with_stdout].
      rewrite <- app_assoc. exact Ha.
  - intros (Hcomp & Hrc & Ha) _. cbn [step fst snd].
    apply will_succeed_loop_head; assumption.
  - intros (Hcomp & Hrc & Ha) _. cbn [step].
    destruct (completes_true p Hcomp) as [_ Hw].
    apply Z.eqb_eq in Hrc. rewrite Hw, Hrc, Ha.
    cbn [negb]. destruct a; [congruence|reflexivity].
  - intros _. cbn [step].
    destruct (finalize _ _ _) as [w' [[]|e]]; discriminate.
Qed.

Lemma will_succeed_run (a : str) (n : nat) :
  a <> [] ->
  forall (w w' : world) (g g' : gen) (out : list bytes),
    grun n w g = (w', g', out) -> will_succeed llama_cli a g ->
    finished g' = false -> will_succeed llama_cli a g'.
Proof.
  intros Hne. induction n as [|n IH]; intros w w' g g' out Hrun Hws Hfin.
  - injection Hrun as _ <- _. exact Hws.
  - rewrite run_S in Hrun.
    pose proof (will_succeed_step a w g Hne Hws) as Hstep.
    destruct (gstep w g) as [[w1 g1] o]. cbn [fst snd] in Hstep.
    destruct (finished g1) eqn:Ef.
    + rewrite (run_idle n w1 g1 Ef) in Hrun. injection Hrun as _ <- _.
      congruence.
    + destruct (grun n w1 g1) as [[w2 g2] out2] eqn:Er.
      injection Hrun as _ <- _. exact (IH _ _ _ _ _ Er (Hstep eq_refl) Hfin).
Qed.

(** Whatever the store has become in the meantime, a generation that is
    going to succeed ends by running the final block on it. *)
Lemma will_succeed_finalizes (a : str) (g : gen) (w : world) :
  a <> [] -> will_succeed llama_cli a g ->
  exists n w1 out,
    store w1 = store w /\ disk w1 = disk w
    /\ grun n w g
       = ((finalize w1 chat_request a).1,
          gen_of_result (finalize w1 chat_request a).2, out).
Proof.
  intros Hne Hws.
  assert (Hwait : forall p full w0,
            completes p = true ->
            returncode p = 0%Z -> assistant_response full = a ->
            exists n w1 out,
              store w1 = store w0 /\ disk w1 = disk w0
              /\ grun n w0 (At_wait p full)
                 = ((finalize w1 chat_request a).1,
                    gen_of_result (finalize w1 chat_request a).2, out)).
  { intros p full w0 Hcomp Hrc Ha. destruct (completes_true p Hcomp) as [_ Hw].
    exists 2%nat, (set_child w0 Child_reaped), [].
    split; [reflexivity|]. split; [reflexivity|].
    apply wait_success; assumption. }
  assert (Hhead : forall p full w0,
            completes p = true ->
            returncode p = 0%Z -> assistant_response (full ++ stdout p) = a ->
            exists n w1 out,
              store w1 = store w0 /\ disk w1 = disk w0
              /\ grun n w0 (loop_head p full)
                 = ((finalize w1 chat_request a).1,
                    gen_of_result (finalize w1 chat_request a).2, out)).
  { intros p full w0 Hcomp Hrc Ha. destruct (completes_true p Hcomp) as [Hc _].
    destruct (loop_head_to_wait p full w0 Hc) as (n1 & _ & H1).
    destruct (Hwait (drained p) (full ++ stdout p) w0 Hcomp Hrc Ha)
      as (n2 & w1 & out & Hs & Hd & H2).
    exists (n1 + n2)%nat, w1, (tokens (stdout p) ++ out).
    split; [exact Hs|]. split; [exact Hd|].
    rewrite run_add, H1, H2. reflexivity. }
  destruct g as [|cmd|p full|p full|p full|p| |a'| |e| ];
    cbn [will_succeed] in Hws; try contradiction.
  - destruct Hws as (p & Hp & Hcomp & Hrc & Ha).
    destruct (Hhead p [] (set_child w Child_running) Hcomp Hrc Ha)
      as (n & w1 & out & Hs & Hd & H).
    exists (S n), w1, out. split; [exact Hs|]. split; [exact Hd|].
    rewrite run_S. cbn [step]. rewrite Hp, H. reflexivity.
  - destruct Hws as (Hcomp & Hrc & Ha).
    destruct (completes_true p Hcomp) as [Hc _].
    destruct (read_loop (stdout p) p full w eq_refl Hc)
      as (n1 & _ & H1).
    destruct (Hwait (drained p) (full ++ stdout p) w Hcomp Hrc Ha)
      as (n2 & w1 & out & Hs & Hd & H2).
    exists (n1 + n2)%nat, w1, (tokens (stdout p) ++ out).
    split; [exact Hs|]. split; [exact Hd|].
    rewrite run_add, H1, H2. reflexivity.
  - destruct Hws as (Hcomp & Hrc & Ha).
    destruct (Hhead p full w Hcomp Hrc Ha)
      as (n & w1 & out & Hs & Hd & H).
    exists (S n), w1, out. split; [exact Hs|]. split; [exact Hd|].
    rewrite run_S. cbn [step]. rewrite H. reflexivity.
  - destruct Hws as (Hcomp & Hrc & Ha). apply Hwait; assumption.
  - subst a'. exists 1%nat, w, [].
    split; [reflexivity|]. split; [reflexivity|].
    rewrite run_S. cbn [step].
    destruct (finalize _ _ _) as [w' [[]|e]]; reflexivity.
Qed.

Lemma finalize_ok (w : world) (d : chat_data) (h : list turn) (a : str) :
  (disk w = Healthy \/ disk w = Remove_fails) ->
  load_chat_data (store w) (chat_id chat_request) = Ok d ->
  history d = Some h ->
  finalize w chat_request a
  = (set_store w
       (<[get_sanitized_history_path (chat_id chat_request) :=
            Document (append_turn d h {| user := message chat_request;
                                         assistant := a |})]> (store w)),
     Ok tt).
Proof.
  intros Hdisk Hload Hh. unfold finalize. rewrite Hload, Hh.
  unfold save_chat_data. destruct Hdisk as [-> | ->]; reflexivity.
Qed.

(** A record without the key [history] serves for the prompt but not for
    the final block, which raises and leaves the store as it was. *)
Lemma finalize_without_history (w : world) (d : chat_data) (a : str) :
  load_chat_data (store w) (chat_id chat_request) = Ok d ->
  history d = None ->
  finalize w chat_request a = (w, Raise KeyError).
Proof. intros Hload Hh. unfold finalize. rewrite Hload, Hh. reflexivity. Qed.

Lemma delete_history_ok (w w2 : world) (id : str) (r : response) :
  delete_history w id = (w2, Ok r) ->
  store w2 !! get_sanitized_history_path id = None /\ disk w2 = disk w.
Proof.
  unfold delete_history. destruct (negb _); [discriminate|].
  destruct (disk (touch_lock w id)) eqn:Ed; try discriminate;
    intros H; injection H as <- _; cbn [store set_store disk];
    (split; [apply lookup_delete_eq | reflexivity]).
Qed.

(** C10: when the record of the session is deleted while the generation is
    under way, a generation that succeeds (the child has been spawned,
    closes its output, is reaped, and leaves status zero and a response)
    still persists its turn: the final block loads the store as it is
    then, finds no record, and saves one with a null system prompt and the
    new turn alone. *)
Theorem finalize_recreates_deleted_record (w0 w1 w2 : world) (d : chat_data)
    (p : process) (k : nat) (g1 : gen) (out1 : list bytes) (r : response)
    (a : str) :
  load_chat_data (store w0) (chat_id chat_request) = Ok d ->
  spawned d p -> completes p = true ->
  returncode p = 0%Z -> assistant_response (stdout p) = a -> a <> [] ->
  (0 < k)%nat ->
  grun k w0 At_lock1 = (w1, g1, out1) -> finished g1 = false ->
  delete_history w1 (chat_id chat_request) = (w2, Ok r) ->
  disk w2 = Healthy ->
  exists n w3 out2,
    grun n w2 g1 = (w3, Returned, out2)
    /\ load_chat_data (store w3) (chat_id chat_request)
       = Ok {| system_prompt := None;
               history := Some [{| user := message chat_request;
                                   assistant := a |}] |}.
Proof.
  intros Hload Hp Hcomp Hrc Ha Hne Hk Hrun Hfin Hdel Hdisk.
  destruct k as [|k]; [lia|]. rewrite run_S in Hrun. cbn [step] in Hrun.
  change (store (touch_lock w0 (chat_id chat_request))) with (store w0) in Hrun.
  rewrite Hload in Hrun.
  destruct (grun k _ (At_spawn _)) as [[wk gk] outk] eqn:Ek.
  injection Hrun as -> -> _.
  assert (Hws : will_succeed llama_cli a g1).
  { apply (will_succeed_run a k Hne _ _ _ _ _ Ek); [|exact Hfin].
    cbn [will_succeed]. exists p. auto. }
  destruct (will_succeed_finalizes a g1 w2 Hne Hws)
    as (n & w3 & out & Hs & Hd & Hfinal).
  destruct (delete_history_ok _ _ _ _ Hdel) as [Hnone _].
  assert (Hempty : load_chat_data (store w3) (chat_id chat_request)
                   = Ok empty_chat_data).
  { rewrite load_chat_data_lookup, Hs, Hnone. reflexivity. }
  rewrite (finalize_ok w3 _ [] a (or_introl (eq_trans Hd Hdisk)) Hempty eq_refl)
    in Hfinal.
  cbn [fst snd gen_of_result] in Hfinal.
  eexists n, _, out. split; [exact Hfinal|].
  cbn [store set_store]. rewrite load_after_insert. reflexivity.
Qed.

(** A generation that succeeds ends with the final block, run on the
    store as the request found it when nothing else touched it. *)
Lemma successful_generation_finalizes (w : world) (d : chat_data)
    (p : process) (a : str) :
  load_chat_data (store w) (chat_id chat_request) = Ok d ->
  spawned d p -> completes p = true ->
  returncode p = 0%Z -> assistant_response (stdout p) = a -> a <> [] ->
  let w1 := set_child (touch_lock w (chat_id chat_request)) Child_reaped in
  stream_llama_response llama_cli chat_request w
  = ((finalize w1 chat_request a).1,
     gen_of_result (finalize w1 chat_request a).2, tokens (stdout p)).
Proof.
  intros Hload Hp Hcomp Hrc Ha Hne w1.
  destruct (completes_true p Hcomp) as [Hc Hw].
  destruct (start_to_wait w d p Hload Hp Hc) as (n & Hn & Hrun).
  rewrite <- (app_nil_r (tokens (stdout p))).
  eapply (stream_from_wait w _ _ d p _ _ _ _ _ n 2 Hload Hp Hn Hrun).
  - lia.
  - exact (wait_success (drained p) _ _ a Hw Hrc Ha Hne).
  - destruct (finalize _ _ _) as [w' [[]|e]]; reflexivity.
Qed.

(** A failed spawn ends the generator with the exception, nothing yielded
    and the store untouched. *)
Lemma failed_spawn_raises (w : world) (d : chat_data) (e : exn) :
  load_chat_data (store w) (chat_id chat_request) = Ok d ->
  create_subprocess_exec llama_cli
    (command (full_prompt d (message chat_request))) = Raise e ->
  stream_llama_response llama_cli chat_request w
  = (touch_lock w (chat_id chat_request), Raised e, []).
Proof.
  intros Hload Hp. unfold stream_llama_response. cbn [step].
  change (store (touch_lock w (chat_id chat_request))) with (store w).
  rewrite Hload, Hp. rewrite run_S. cbn [step].
  change (store (touch_lock w (chat_id chat_request))) with (store w).
  rewrite Hload. rewrite run_S. cbn [step]. rewrite Hp. reflexivity.
Qed.

(** The consumer sees the generator finish whenever the child, if one is
    spawned, closes its output and is reaped. *)
Lemma stream_llama_response_finishes (w : world) :
  (forall d p, load_chat_data (store w) (chat_id chat_request) = Ok d ->
               spawned d p -> completes p = true) ->
  finished (stream_llama_response llama_cli chat_request w).1.2 = true.
Proof.
  intros Hall.
  destruct (load_chat_data (store w) (chat_id chat_request)) as [d|e] eqn:Hload.
  - destruct (create_subprocess_exec llama_cli
                (command (full_prompt d (message chat_request))))
      as [p|e] eqn:Hp.
    + specialize (Hall d p eq_refl Hp).
      destruct (Z.eq_dec (returncode p) 0%Z) as [Hrc|Hrc].
      * destruct (assistant_response (stdout p)) as [|c a] eqn:Ha.
        -- destruct (empty_extraction_finishes w d p Hload Hp Hall Hrc Ha)
             as (w' & -> & _).
           reflexivity.
        -- rewrite (successful_generation_finalizes w d p (c :: a)
                      Hload Hp Hall Hrc Ha)
             by discriminate.
           cbn [fst snd]. destruct (finalize _ _ _) as [w' [[]|e]]; reflexivity.
      * destruct (failed_generation_finishes w d p Hload Hp Hall Hrc)
          as (w' & -> & _).
        reflexivity.
    + rewrite (failed_spawn_raises w d e Hload Hp). reflexivity.
  - unfold stream_llama_response. cbn [step].
    change (store (touch_lock w (chat_id chat_request))) with (store w).
    rewrite Hload. reflexivity.
Qed.

End Generator.

Lemma triple_eta {A B C} (x : A * B * C) : x = (x.1.1, x.1.2, x.2).
Proof. destruct x as [[a b] c]. reflexivity. Qed.


(** C5, as stated, fails: the marker of the code is [### Assistant:]; an
    output that holds [Assistant:] without the prefix is kept whole, and
    that is what gets persisted. *)
Lemma extraction_uses_the_prefixed_marker :
  assistant_response (pyb "Assistant: hello") = py "Assistant: hello"
  /\ spec_assistant_response (py "Assistant:")
       (decode_ignore (pyb "Assistant: hello")) = py "hello"
  /\ assistant_response (pyb "Assistant: hello")
     <> spec_assistant_response (py "Assistant:")
          (decode_ignore (pyb "Assistant: hello"))
  /\ load_chat_data
       (store (stream_llama_response (exits "Assistant: hello" 0 "")
                 (req "abc" "hi") world0).1.1) (py "abc")
     = Ok {| system_prompt := None;
             history := Some [{| user := py "hi";
                                 assistant := py "Assistant: hello" |}] |}.
Proof.
  split; [vm_compute; reflexivity|].
  split; [vm_compute; reflexivity|].
  split; [vm_compute; discriminate | vm_compute; reflexivity].
Qed.

Lemma empty_extraction_is_not_persisted_witness :
  exists w',
    stream_llama_response (exits "### Assistant:  " 0 "") (req "abc" "hello")
      (world_abc (Document record_hi_hey))
    = (w', Returned, tokens (pyb "### Assistant:  "))
    /\ load_chat_data (store w') (py "abc") = Ok record_hi_hey.
Proof.
  destruct (empty_extraction_is_not_persisted
              (exits "### Assistant:  " 0 "") (req "abc" "hello")
              (world_abc (Document record_hi_hey)) record_hi_hey
              (exited (pyb "### Assistant:  ") 0 (pyb ""))
              ltac:(vm_compute; reflexivity) ltac:(vm_compute; reflexivity)
              eq_refl eq_refl ltac:(vm_compute; reflexivity))
    as (_ & w' & Hrun & _ & Hload).
  exists w'. split; [exact Hrun | exact Hload].
Defined.

(** C8, as stated, fails: the source has no call that terminates the
    child; a stream abandoned after its first byte leaves the child
    running, with output still to deliver, and never waited for. *)
Lemma abandoned_child_keeps_running :
  let '(w1, g1, out1) :=
    run (exits "hi" 0 "") (req "abc" "hello") 3 world0 At_lock1 in
  out1 = [pyb "h"]
  /\ (exists p full, g1 = At_yield_token p full /\ stdout p = pyb "i")
  /\ (aclose w1 g1).2 = Closed
  /\ child (aclose w1 g1).1 = Child_running
  /\ child (aclose w1 g1).1 <> Child_reaped.
Proof.
  vm_compute. split; [reflexivity|]. split; [eauto|].
  split; [reflexivity|]. split; [reflexivity|discriminate].
Qed.

Lemma abandoned_stream_persists_nothing_witness :
  store (aclose three_steps_in.1.1 three_steps_in.1.2).1
  = store (world_abc (Document record_hi_hey))
  /\ child (aclose three_steps_in.1.1 three_steps_in.1.2).1 = Child_running.
Proof.
  pose proof (abandoned_stream_persists_nothing cli_fine (req "abc" "hello")
                (world_abc (Document record_hi_hey))
                three_steps_in.1.1 3 three_steps_in.1.2 three_steps_in.2
                (triple_eta three_steps_in) ltac:(vm_compute; reflexivity))
    as (_ & Hstore & _ & _ & Hchild).
  split; [exact Hstore|].
  eapply Hchild. right. reflexivity.
Defined.

Lemma finalize_recreates_deleted_record_witness :
  exists n w3 out2,
    run cli_fine (req "abc" "hello") n then_deleted.1 three_steps_in.1.2
    = (w3, Returned, out2)
    /\ load_chat_data (store w3) (py "abc")
       = Ok {| system_prompt := None;
               history := Some [{| user := py "hello"; assistant := py "fine" |}] |}.
Proof.
  apply (finalize_recreates_deleted_record cli_fine (req "abc" "hello")
           (world_abc (Document record_hi_hey)) three_steps_in.1.1
           then_deleted.1 record_hi_hey
           (exited (pyb "### Assistant: fine") 0 (pyb ""))
           3 three_steps_in.1.2 three_steps_in.2
           (JSON_detail (py "Chat history 'abc' deleted."))
           (py "fine"));
    try (vm_compute; reflexivity).
  - discriminate.
  - lia.
Defined.

(** ** The window of stored turns *)

Lemma persist_turns_ok (id : str) (turns : list turn) :
  forall (w : world) (d : chat_data) (h : list turn),
    disk w = Healthy ->
    load_chat_data (store w) id = Ok d ->
    history d = Some h ->
    exists w',
      persist_turns w id turns = (w', Ok tt)
      /\ disk w' = Healthy
      /\ load_chat_data (store w') id
         = Ok {| system_prompt := system_prompt d;
                 history := Some match turns with
                                 | [] => h
                                 | _ => last_n MAX_HISTORY_MESSAGES (h ++ turns)
                                 end |}.
Proof.
  induction turns as [|t turns IH]; intros w d h Hdisk Hload Hh.
  - exists w. destruct d. cbn [history] in Hh. subst. auto.
  - cbn [persist_turns].
    rewrite (finalize_ok {| message := user t; chat_id := id |} w d h
               (assistant t) (or_introl Hdisk) Hload Hh).
    set (w1 := set_store w _).
    destruct (IH w1 (append_turn d h {| user := user t; assistant := assistant t |})
                (last_n MAX_HISTORY_MESSAGES (h ++ [t])) Hdisk)
      as (w' & Hrun & Hd & Hl).
    { unfold w1. cbn [store set_store chat_id]. rewrite load_after_insert.
      destruct t; reflexivity. }
    { destruct t; reflexivity. }
    exists w'. split; [exact Hrun|]. split; [exact Hd|].
    rewrite Hl. cbn [append_turn system_prompt]. do 3 f_equal.
    destruct turns as [|t' turns']; [reflexivity|].
    rewrite last_n_last_n_app, <- app_assoc. reflexivity.
Qed.

(** C2: over any sequence of persisted writes to one session, the stored
    history after each write is at most [MAX_HISTORY_MESSAGES] long; when
    the sequence has more than [MAX_HISTORY_MESSAGES] writes, the history
    after the last is exactly [MAX_HISTORY_MESSAGES] long and is the last
    [MAX_HISTORY_MESSAGES] turns appended, in their order. *)
Theorem window_invariant (w : world) (id : str) (d : chat_data)
    (h : list turn) (turns : list turn) :
  disk w = Healthy ->
  load_chat_data (store w) id = Ok d ->
  history d = Some h ->
  (forall k, (0 < k <= length turns)%nat ->
     exists w' d' h',
       persist_turns w id (take k turns) = (w', Ok tt)
       /\ load_chat_data (store w') id = Ok d'
       /\ history d' = Some h'
       /\ (length h' <= MAX_HISTORY_MESSAGES)%nat)
  /\ ((MAX_HISTORY_MESSAGES < length turns)%nat ->
      exists w' d' h',
        persist_turns w id turns = (w', Ok tt)
        /\ load_chat_data (store w') id = Ok d'
        /\ history d' = Some h'
        /\ h' = last_n MAX_HISTORY_MESSAGES turns
        /\ length h' = MAX_HISTORY_MESSAGES).
Proof.
  intros Hdisk Hload Hh. split.
  - intros k Hk.
    destruct (persist_turns_ok id (take k turns) w d h Hdisk Hload Hh)
      as (w' & Hrun & _ & Hl).
    eexists w', _, _. split; [exact Hrun|]. split; [exact Hl|].
    split; [reflexivity|].
    destruct (take k turns) eqn:E.
    + apply (f_equal length) in E. rewrite length_take in E. simpl in E. lia.
    + rewrite last_n_length. lia.
  - intros Hlen.
    destruct (persist_turns_ok id turns w d h Hdisk Hload Hh)
      as (w' & Hrun & _ & Hl).
    eexists w', _, _. split; [exact Hrun|]. split; [exact Hl|].
    split; [reflexivity|].
    destruct turns as [|t turns]; [simpl in Hlen; lia|].
    rewrite last_n_app by lia. split; [reflexivity|].
    rewrite last_n_length. lia.
Qed.

Lemma window_invariant_witness :
  exists w' d',
    persist_turns world0 (py "abc") twelve_turns = (w', Ok tt)
    /\ load_chat_data (store w') (py "abc") = Ok d'
    /\ history d' = Some (drop 2 twelve_turns).
Proof.
  destruct (window_invariant world0 (py "abc") empty_chat_data [] twelve_turns
              eq_refl eq_refl eq_refl)
    as (_ & Hlast).
  destruct (Hlast ltac:(vm_compute; lia)) as (w' & d' & h' & H1 & H2 & H3 & H4 & _).
  exists w', d'. rewrite H3, H4. auto.
Defined.

(** Whole requests whose generations all succeed persist one turn each:
    the store they leave is the one [persist_turns] leaves for the turns
    made of their messages and the responses extracted. *)
Lemma requests_persist_their_turns (llama_cli : list str -> result process)
    (id : str) (msgs : list str) :
  (forall cmd, exists p,
      create_subprocess_exec llama_cli cmd = Ok p
      /\ completes p = true /\ returncode p = 0%Z
      /\ assistant_response (stdout p) <> []) ->
  forall (w wp : world) (d : chat_data) (h : list turn),
    store w = store wp -> disk w = Healthy -> disk wp = Healthy ->
    load_chat_data (store w) id = Ok d -> history d = Some h ->
    exists turns wp',
      user <$> turns = msgs
      /\ persist_turns wp id turns = (wp', Ok tt)
      /\ store (serve_all llama_cli id w msgs) = store wp'.
Proof.
  intros Hcli. induction msgs as [|msg msgs IH];
    intros w wp d h Hstore Hdisk Hdiskp Hload Hh.
  - exists [], wp. auto.
  - set (rq := {| message := msg; chat_id := id |}).
    destruct (Hcli (command (full_prompt d msg))) as (p & Hp & Hcomp & Hrc & Hne).
    set (t := {| user := msg; assistant := assistant_response (stdout p) |}).
    assert (Hserve : serve llama_cli id w msg
                     = set_store (set_child (touch_lock w id) Child_reaped)
                         (<[get_sanitized_history_path id :=
                              Document (append_turn d h t)]> (store w))).
    { unfold serve. fold rq.
      rewrite (successful_generation_finalizes llama_cli rq w d p _
                 Hload Hp Hcomp Hrc eq_refl Hne).
      cbv zeta.
      rewrite (finalize_ok rq (set_child (touch_lock w id) Child_reaped) d h _
                 (or_introl Hdisk) Hload Hh).
      reflexivity. }
    destruct (IH (serve llama_cli id w msg)
                 (set_store wp (<[get_sanitized_history_path id :=
                                    Document (append_turn d h t)]> (store wp)))
                 (append_turn d h t)
                 (last_n MAX_HISTORY_MESSAGES (h ++ [t])))
      as (turns & wp' & Hu & Hpt & Hs).
    + rewrite Hserve, Hstore. reflexivity.
    + rewrite Hserve. exact Hdisk.
    + exact Hdiskp.
    + rewrite Hserve. cbn [store set_store]. apply load_after_insert.
    + reflexivity.
    + exists (t :: turns), wp'. split; [cbn; rewrite Hu; reflexivity|].
      split; [|exact Hs].
      cbn [persist_turns]. rewrite Hstore in Hload.
      rewrite (finalize_ok {| message := user t; chat_id := id |} wp d h
                 (assistant t) (or_introl Hdiskp) Hload Hh).
      exact Hpt.
Qed.

(** * Further properties of the code *)

(** ** Occurrences of the marker *)

Lemma occurs_in_app {A} (s pre t post : list A) :
  occurs_in s t -> occurs_in s (pre ++ t ++ post).
Proof.
  intros (a & b & ->). exists (pre ++ a), (b ++ post).
  rewrite <- !app_assoc. reflexivity.
Qed.

Lemma after_last_no_occurrence (sep s : str) :
  ~ occurs_in sep s -> after_last sep s = None.
Proof.
  induction s as [|c s IH]; intros Hno; [reflexivity|].
  cbn [after_last]. rewrite IH.
  - destruct (startswith (c :: s) sep) eqn:E; [exfalso|reflexivity].
    apply Hno. exists [], (drop (length sep) (c :: s)).
    exact (startswith_true _ _ E).
  - intros H. apply Hno. apply (occurs_in_app sep [c] s []) in H.
    rewrite app_nil_r in H. exact H.
Qed.

Lemma after_last_None (sep s : str) :
  sep <> [] -> after_last sep s = None -> ~ occurs_in sep s.
Proof.
  intros Hne. induction s as [|c s IH]; intros Hnone (pre & post & E).
  - destruct pre; [|discriminate]. destruct sep; [congruence|discriminate].
  - cbn [after_last] in Hnone.
    destruct (after_last sep s) eqn:Es; [discriminate|].
    destruct (startswith (c :: s) sep) eqn:Ew; [discriminate|].
    destruct pre as [|x pre].
    + simpl in E. rewrite E, startswith_app in Ew. discriminate.
    + injection E as _ E. apply (IH eq_refl). exists pre, post. exact E.
Qed.


Lemma after_last_marker_then_free (sep pre t : str) :
  border_free sep = true -> sep <> [] -> ~ occurs_in sep t ->
  after_last sep (pre ++ sep ++ t) = Some t.
Proof.
  intros Hbf Hne Hfree. induction pre as [|x pre IH].
  - destruct sep as [|c tl]; [congruence|].
    change ([] ++ (c :: tl) ++ t) with (c :: (tl ++ t)). cbn [after_last].
    rewrite (after_last_inside (c :: tl) t Hbf tl [c]) by (reflexivity || discriminate).
    rewrite (after_last_no_occurrence _ _ Hfree).
    change (c :: tl ++ t) with ((c :: tl) ++ t). rewrite startswith_app.
    rewrite drop_app_length. reflexivity.
  - change ((x :: pre) ++ sep ++ t) with (x :: (pre ++ sep ++ t)).
    cbn [after_last]. rewrite IH. reflexivity.
Qed.

Lemma join_cons_nonempty (sep p : str) (l : list str) :
  l <> [] -> join sep (p :: l) = p ++ sep ++ join sep l.
Proof. destruct l; [congruence|reflexivity]. Qed.

Lemma join_snoc (sep x : str) (l : list str) :
  exists pre, join sep (l ++ [x]) = pre ++ x.
Proof.
  induction l as [|p l [pre IH]]; [exists []; reflexivity|].
  change ((p :: l) ++ [x]) with (p :: (l ++ [x])).
  rewrite join_cons_nonempty by (destruct l; discriminate).
  exists (p ++ sep ++ pre). rewrite IH, <- !app_assoc. reflexivity.
Qed.

(** Every prompt ends with the marker the extraction looks for. *)
Lemma full_prompt_ends_with_marker (d : chat_data) (m : str) :
  exists pre, full_prompt d m = pre ++ ASSISTANT_MARKER.
Proof.
  unfold full_prompt, prompt_parts. rewrite app_assoc.
  destruct (join_snoc [LF] (format_message m)
              ((match system_prompt d with Some (c :: s) => [c :: s] | _ => [] end)
               ++ (format_turn <$> last_n MAX_HISTORY_MESSAGES (default [] (history d)))))
    as [pre ->].
  exists (pre ++ py "### Human: " ++ m ++ [LF]).
  unfold format_message. rewrite <- !app_assoc. reflexivity.
Qed.




(** X2: when the child echoes the prompt and then writes a text in which
    the marker does not occur, the response extracted is that text,
    trimmed: the prompt is cut off, whatever record and message it was
    built from. *)
Theorem echoed_prompt_is_cut_off (d : chat_data) (m : str) (full : bytes)
    (t : str) :
  decode_ignore full = full_prompt d m ++ t ->
  ~ occurs_in ASSISTANT_MARKER t ->
  assistant_response full = strip t.
Proof.
  intros Hfull Hfree. unfold assistant_response.
  rewrite split_last_piece, Hfull.
  destruct (full_prompt_ends_with_marker d m) as [pre ->].
  rewrite <- app_assoc.
  rewrite (after_last_marker_then_free ASSISTANT_MARKER pre t eq_refl
             ltac:(discriminate) Hfree).
  reflexivity.
Qed.

Lemma echoed_prompt_is_cut_off_witness :
  assistant_response
    (encode (full_prompt record_hi_hey (py "how are you") ++ py " I am well. "))
  = py "I am well.".
Proof.
  rewrite (echoed_prompt_is_cut_off record_hi_hey (py "how are you") _
             (py " I am well. ")).
  - vm_compute. reflexivity.
  - vm_compute. reflexivity.
  - apply after_last_None; [discriminate | vm_compute; reflexivity].
Defined.

(** ** UTF-8 *)

(** X3: encoding a text to UTF-8 and decoding the bytes gives the text
    back, for every text without surrogates, and the encoding of such a
    text is never cut by the decoder: what follows it is decoded on its
    own. *)
Theorem decode_encode_round_trip (s : str) (rest : bytes) :
  Forall scalar_value s ->
  decode_ignore (encode s) = s
  /\ decode_ignore (encode s ++ rest) = s ++ decode_ignore rest.
Proof.
  intros Hs. split; [exact (decode_encode_scalar s Hs)|].
  unfold decode_ignore, encode. rewrite fmap_app.
  induction Hs as [|c s Hc Hs IH]; [reflexivity|].
  cbn [mbind list_bind]. change (mbind encode_char s) with (s ≫= encode_char).
  rewrite fmap_app, <- app_assoc, (decode_encode_char c _ Hc), IH. reflexivity.
Qed.

Lemma decode_encode_round_trip_witness :
  decode_ignore (encode [104; 233; 8364; 128512]) = [104; 233; 8364; 128512]
  /\ encode [104; 233; 8364; 128512]
     = [x68; xc3; xa9; xe2; x82; xac; xf0; x9f; x98; x80].
Proof.
  split; [|vm_compute; reflexivity].
  apply (decode_encode_round_trip [104; 233; 8364; 128512] []).
  repeat constructor; unfold scalar_value; lia.
Defined.

(** The error notice a client receives decodes to the message of line 124. *)
Lemma error_notice_decodes (p : process) :
  decode_ignore (encode (error_message (stderr_text p)))
  = error_message (stderr_text p).
Proof. apply decode_encode_scalar, error_message_scalar. Qed.

(** ** [split] and [join] *)

Lemma join_split_go (sep : str) :
  sep <> [] ->
  forall n s cur, (length s <= n)%nat ->
    join sep (split_go sep 0 cur s) = cur ++ s.
Proof.
  intros Hne. induction n as [|n IH]; intros s cur Hlen.
  - destruct s; [|simpl in Hlen; lia]. simpl. rewrite app_nil_r. reflexivity.
  - destruct s as [|c s]; [simpl; rewrite app_nil_r; reflexivity|].
    cbn [split_go]. destruct (startswith (c :: s) sep) eqn:E.
    + pose proof (startswith_true _ _ E) as Hs.
      destruct sep as [|x tl]; [congruence|].
      cbn [length drop app] in Hs. injection Hs as Hx Hs.
      remember (drop (length tl) s) as r eqn:Hr. clear Hr E. subst x s.
      replace (length (c :: tl) - 1)%nat with (length tl) by (simpl; lia).
      rewrite split_go_skip.
      rewrite join_cons_nonempty by apply split_go_nonempty.
      rewrite IH by (simpl in Hlen; rewrite length_app in Hlen; lia).
      reflexivity.
    + rewrite IH by (simpl in Hlen; lia). rewrite <- app_assoc. reflexivity.
Qed.

(** X4: splitting a text on a non-empty separator and joining the pieces
    with the same separator gives the text back: the pieces lose nothing,
    and the last piece taken at line 129 is a suffix of the decoded
    output. *)
Theorem join_split_round_trip (s sep : str) :
  sep <> [] ->
  join sep (split s sep) = s
  /\ exists pre, s = pre ++ last_piece (split s sep).
Proof.
  intros Hne.
  assert (Hj : join sep (split s sep) = s)
    by exact (join_split_go sep Hne (length s) s [] (le_n _)).
  split; [exact Hj|].
  unfold split in *. unfold last_piece.
  pose proof (split_go_nonempty sep s 0 []) as Hnil.
  destruct (exists_last Hnil) as (l & x & El). rewrite El in *.
  rewrite last_last. destruct (join_snoc sep x l) as [pre Hp].
  exists pre. rewrite <- Hp. symmetry. exact Hj.
Qed.

Lemma join_split_round_trip_witness :
  join (py "::") (split (py "a::b::::c") (py "::")) = py "a::b::::c"
  /\ split (py "a::b::::c") (py "::") = [py "a"; py "b"; []; py "c"].
Proof.
  split; [|vm_compute; reflexivity].
  apply (join_split_round_trip (py "a::b::::c") (py "::")). discriminate.
Defined.

(** ** Validation *)

Lemma trim_start_suffix (s : str) : exists pre, s = pre ++ trim_start s.
Proof.
  induction s as [|c s [pre IH]]; [exists []; reflexivity|].
  cbn [trim_start]. destruct (is_white_space c).
  - exists (c :: pre). simpl. f_equal. exact IH.
  - exists []. reflexivity.
Qed.

Lemma trim_end_prefix (s : str) : exists post, s = trim_end s ++ post.
Proof.
  unfold trim_end. destruct (trim_start_suffix (rev s)) as [pre H].
  exists (rev pre). rewrite <- (rev_involutive s), H, rev_app_distr at 1.
  reflexivity.
Qed.

Lemma trim_start_head (s : str) :
  match trim_start s with [] => True | c :: _ => is_white_space c = false end.
Proof.
  induction s as [|c s IH]; [exact I|]. cbn [trim_start].
  destruct (is_white_space c) eqn:E; [exact IH | exact E].
Qed.

Lemma trim_start_fixed (s : str) :
  match s with [] => True | c :: _ => is_white_space c = false end ->
  trim_start s = s.
Proof.
  destruct s as [|c s]; [reflexivity|]. cbn [trim_start]. intros ->. reflexivity.
Qed.

Lemma trim_end_idem (s : str) : trim_end (trim_end s) = trim_end s.
Proof.
  unfold trim_end. rewrite rev_involutive.
  rewrite (trim_start_fixed _ (trim_start_head (rev s))). reflexivity.
Qed.

Lemma trim_trimmed (s : str) : trimmed_white_space (trim s).
Proof.
  unfold trimmed_white_space, trim. split; [|apply trim_end_idem].
  apply trim_start_fixed.
  destruct (trim_end_prefix (trim_start s)) as [post H].
  pose proof (trim_start_head s) as Hh. rewrite H in Hh.
  destruct (trim_end (trim_start s)); [exact I | exact Hh].
Qed.

Lemma trim_idem (s : str) : trim (trim s) = trim s.
Proof.
  destruct (trim_trimmed s) as [Hl Hr].
  unfold trim at 1. rewrite Hl. exact Hr.
Qed.

Lemma trim_substring (s : str) : exists pre post, s = pre ++ trim s ++ post.
Proof.
  destruct (trim_start_suffix s) as [pre H1].
  destruct (trim_end_prefix (trim_start s)) as [post H2].
  exists pre, post. unfold trim. rewrite <- H2. exact H1.
Qed.

Lemma trim_scalar (s : str) :
  forallb is_scalar s = true -> forallb is_scalar (trim s) = true.
Proof.
  destruct (trim_substring s) as (pre & post & E). intros H.
  rewrite E, !forallb_app in H.
  apply andb_true_iff in H as [_ H]. apply andb_true_iff in H as [H _].
  exact H.
Qed.

Lemma chat_id_char_not_white_space (c : char) :
  chat_id_char c = true -> is_white_space c = false.
Proof.
  unfold chat_id_char, is_white_space. intros H.
  repeat match goal with
    | H : (_ || _) = true |- _ => apply orb_true_iff in H as [H | H]
    end; bool_to_prop;
    repeat match goal with
      | |- (_ || _) = false => apply orb_false_iff; split
      | |- (_ && _) = false => apply andb_false_iff
      end;
    try (apply N.eqb_neq; lia);
    try (left; apply N.leb_gt; lia); try (right; apply N.leb_gt; lia).
Qed.

(** X5: what validation accepts is the input with the characters of the
    Unicode property White_Space trimmed from both ends, within the length
    bounds, free of surrogates, and validating it again returns it
    unchanged; an accepted chat id holds only letters, digits, underscores
    and hyphens, and an accepted message has no such whitespace at either
    end. *)
Theorem accepted_values_are_normal (raw v : str) :
  (SafeChatID raw = Some v ->
   v = trim raw /\ SafeChatID_ok v = true /\ SafeChatID v = Some v
   /\ Forall (fun c => chat_id_char c = true /\ is_white_space c = false) v)
  /\ (SafeStr raw = Some v ->
      v = trim raw /\ (1 <= length v <= MAX_INPUT_LENGTH)%nat
      /\ trimmed_white_space v
      /\ forallb is_scalar raw = true /\ forallb is_scalar v = true
      /\ SafeStr v = Some v).
Proof.
  split.
  - unfold SafeChatID. destruct (forallb is_scalar raw) eqn:Es; [|discriminate].
    cbv zeta. destruct (SafeChatID_ok (trim raw)) eqn:E; [|discriminate].
    intros H. injection H as <-.
    rewrite (trim_scalar raw Es), trim_idem, E.
    repeat split; try reflexivity.
    unfold SafeChatID_ok in E. apply andb_true_iff in E as [_ Hall].
    rewrite forallb_forall in Hall. apply Forall_forall. intros c Hc.
    apply list_elem_of_In in Hc. specialize (Hall c Hc).
    split; [exact Hall | exact (chat_id_char_not_white_space c Hall)].
  - unfold SafeStr. destruct (forallb is_scalar raw) eqn:Es; [|discriminate].
    cbv zeta.
    destruct ((1 <=? length (trim raw))%nat
              && (length (trim raw) <=? MAX_INPUT_LENGTH)%nat) eqn:E;
      [|discriminate].
    intros H. injection H as <-.
    rewrite (trim_scalar raw Es), trim_idem, E.
    apply andb_true_iff in E as [H1 H2].
    apply Nat.leb_le in H1. apply Nat.leb_le in H2.
    repeat split; try assumption; apply trim_trimmed.
Qed.

Lemma accepted_values_are_normal_witness :
  SafeChatID (py "  my-chat_1 ") = Some (py "my-chat_1")
  /\ SafeChatID (py "my-chat_1") = Some (py "my-chat_1")
  /\ SafeChatID (py "a/b") = None
  /\ SafeStr [28; 104; 105; 31] = Some [28; 104; 105; 31]
  /\ SafeStr [160; 104; 105; 8239] = Some [104; 105]
  /\ SafeStr [104; 55296] = None.
Proof.
  destruct (accepted_values_are_normal (py "  my-chat_1 ") (py "my-chat_1"))
    as [H _].
  destruct (H ltac:(vm_compute; reflexivity)) as (_ & _ & Hagain & _).
  split; [vm_compute; reflexivity|]. split; [exact Hagain|].
  repeat split; vm_compute; reflexivity.
Defined.

(** ** Sessions and their files *)

Lemma history_path_cases (id : str) :
  get_sanitized_history_path id
  = if startswith (id ++ py ".json") (py "/") then id ++ py ".json"
    else HISTORY_DIR ++ py "/" ++ id ++ py ".json".
Proof.
  unfold get_sanitized_history_path, os_path_join.
  destruct (startswith (id ++ py ".json") (py "/")); reflexivity.
Qed.

Lemma history_path_inj (id1 id2 : str) :
  get_sanitized_history_path id1 = get_sanitized_history_path id2 -> id1 = id2.
Proof.
  rewrite !history_path_cases.
  destruct (startswith (id1 ++ py ".json") (py "/")) eqn:E1;
    destruct (startswith (id2 ++ py ".json") (py "/")) eqn:E2; intros H.
  - exact (app_inv_tail _ _ _ H).
  - apply startswith_true in E1. rewrite E1 in H. discriminate H.
  - apply startswith_true in E2. rewrite E2 in H. discriminate H.
  - apply app_inv_head in H. apply app_inv_head in H.
    exact (app_inv_tail _ _ _ H).
Qed.

Lemma load_other_path (fs fs' : gmap (list N) file_content) (id : str) :
  fs' !! get_sanitized_history_path id = fs !! get_sanitized_history_path id ->
  load_chat_data fs' id = load_chat_data fs id.
Proof. intros H. rewrite !load_chat_data_lookup, H. reflexivity. Qed.

(** ** The directory listing *)

Lemma listdir_insert_new (fs : gmap (list N) file_content) (p dir : str)
    (c : file_content) :
  fs !! p = None ->
  os_listdir (<[p := c]> fs) dir
  ≡ₚ match entry_name dir p with
     | Some name => name :: os_listdir fs dir
     | None => os_listdir fs dir
     end.
Proof.
  intros Hnone. unfold os_listdir.
  rewrite dom_insert_L, elements_union_singleton by (apply not_elem_of_dom, Hnone).
  cbn [omap list_omap]. destruct (entry_name dir p); reflexivity.
Qed.

Lemma listdir_insert_existing (fs : gmap (list N) file_content) (p dir : str)
    (c : file_content) :
  is_Some (fs !! p) -> os_listdir (<[p := c]> fs) dir = os_listdir fs dir.
Proof. intros H. unfold os_listdir. rewrite dom_insert_lookup_L by exact H. reflexivity. Qed.

Lemma listdir_delete (fs : gmap (list N) file_content) (p dir : str)
    (c : file_content) :
  fs !! p = Some c ->
  os_listdir fs dir
  ≡ₚ match entry_name dir p with
     | Some name => name :: os_listdir (delete p fs) dir
     | None => os_listdir (delete p fs) dir
     end.
Proof.
  intros H. rewrite <- (listdir_insert_new (delete p fs) p dir c)
    by apply lookup_delete_eq.
  rewrite insert_delete_eq, insert_id by exact H. reflexivity.
Qed.

Lemma listdir_insert_le (fs : gmap (list N) file_content) (p dir : str)
    (c : file_content) :
  (length (os_listdir (<[p := c]> fs) dir) <= S (length (os_listdir fs dir)))%nat.
Proof.
  destruct (fs !! p) as [c'|] eqn:E.
  - rewrite listdir_insert_existing by (rewrite E; eauto). lia.
  - rewrite (listdir_insert_new fs p dir c E).
    destruct (entry_name dir p); simpl; lia.
Qed.

Lemma endswith_app (s suffix : str) : endswith (s ++ suffix) suffix = true.
Proof. unfold endswith. rewrite rev_app_distr. apply startswith_app. Qed.

Lemma endswith_true (s suffix : str) :
  endswith s suffix = true -> exists g, s = g ++ suffix.
Proof.
  unfold endswith. intros H. apply startswith_true in H.
  exists (rev (drop (length (rev suffix)) (rev s))).
  rewrite <- (rev_involutive s), H, rev_app_distr, !rev_involutive at 1.
  reflexivity.
Qed.

Lemma accepted_entry_name (id : str) :
  SafeChatID_ok id = true ->
  entry_name HISTORY_DIR (get_sanitized_history_path id) = Some (id ++ py ".json").
Proof.
  intros H. rewrite (history_path_of_accepted id H).
  exact (entry_name_app HISTORY_DIR _ (accepted_name_no_sep id H)).
Qed.

(** X6: two different accepted chat ids never share a history file: each
    has its own entry of the history directory, named by the id, so a
    save, a delete or a final block for one session leaves what a load
    returns for the other as it was. *)
Theorem sessions_are_isolated (id1 id2 : str) :
  SafeChatID_ok id1 = true -> SafeChatID_ok id2 = true ->
  id1 <> id2 ->
  get_sanitized_history_path id1 <> get_sanitized_history_path id2
  /\ entry_name HISTORY_DIR (get_sanitized_history_path id1)
     = Some (id1 ++ py ".json")
  /\ entry_name HISTORY_DIR (get_sanitized_history_path id2)
     = Some (id2 ++ py ".json")
  /\ (forall disk fs data,
        load_chat_data (save_chat_data disk fs id1 data).1 id2
        = load_chat_data fs id2)
  /\ (forall w,
        load_chat_data (store (delete_history w id1).1) id2
        = load_chat_data (store w) id2)
  /\ (forall w msg a,
        load_chat_data
          (store (finalize w {| message := msg; chat_id := id1 |} a).1) id2
        = load_chat_data (store w) id2).
Proof.
  intros Hok1 Hok2 Hne.
  assert (Hp : get_sanitized_history_path id1 <> get_sanitized_history_path id2).
  { intros H. apply Hne, history_path_inj, H. }
  assert (Hsave : forall disk fs data,
             load_chat_data (save_chat_data disk fs id1 data).1 id2
             = load_chat_data fs id2).
  { intros disk fs data. apply load_other_path. unfold save_chat_data.
    destruct disk; cbn [fst]; rewrite ?lookup_insert_ne by exact Hp;
      reflexivity. }
  split; [exact Hp|].
  split; [exact (accepted_entry_name id1 Hok1)|].
  split; [exact (accepted_entry_name id2 Hok2)|].
  split; [exact Hsave|]. split.
  - intros w. apply load_other_path. unfold delete_history.
    destruct (negb _); [reflexivity|].
    destruct (disk (touch_lock w id1)); cbn [fst store set_store];
      rewrite ?lookup_delete_ne by exact Hp; reflexivity.
  - intros w msg a. unfold finalize. cbn [chat_id].
    destruct (load_chat_data (store w) id1) as [d|e]; [|reflexivity].
    destruct (history d) as [h|]; [|reflexivity].
    specialize (Hsave (disk w) (store w)
                  (append_turn d h {| user := msg; assistant := a |})).
    destruct (save_chat_data _ _ _ _) as [fs r]. exact Hsave.
Qed.

Lemma sessions_are_isolated_witness :
  get_sanitized_history_path (py "abc") <> get_sanitized_history_path (py "abd")
  /\ load_chat_data
       (save_chat_data Write_fails (store_abc (Document record_hi_hey))
          (py "abd") empty_chat_data).1 (py "abc")
     = Ok record_hi_hey.
Proof.
  destruct (sessions_are_isolated (py "abd") (py "abc")
              ltac:(vm_compute; reflexivity) ltac:(vm_compute; reflexivity)
              ltac:(discriminate))
    as (Hp & _ & _ & Hsave & _).
  split; [intros H; apply Hp; symmetry; exact H|].
  rewrite Hsave. vm_compute. reflexivity.
Defined.

Lemma session_files_insert_new (fs : gmap (list N) file_content) (id : str)
    (c : file_content) :
  SafeChatID_ok id = true ->
  fs !! get_sanitized_history_path id = None ->
  session_files (<[get_sanitized_history_path id := c]> fs)
  ≡ₚ (id ++ py ".json") :: session_files fs.
Proof.
  intros Hok Hnone. unfold session_files.
  rewrite (listdir_insert_new fs _ HISTORY_DIR c Hnone), (accepted_entry_name id Hok).
  rewrite filter_cons, decide_True by apply endswith_app. reflexivity.
Qed.

(** X7: for an accepted chat id, saving the first record of a session adds
    exactly one to the number of stored sessions, saving over an existing
    record leaves the number as it is, and a successful delete takes
    exactly one away. *)
Theorem session_count_follows_records (id : str) :
  SafeChatID_ok id = true ->
  (forall fs data,
     session_count (save_chat_data Healthy fs id data).1
     = if os_path_exists fs (get_sanitized_history_path id)
       then session_count fs else S (session_count fs))
  /\ (forall w w2 r,
        delete_history w id = (w2, Ok r) ->
        S (session_count (store w2)) = session_count (store w)).
Proof.
  intros Hok. split.
  - intros fs data. unfold save_chat_data, os_path_exists, session_count.
    cbn [fst]. destruct (fs !! get_sanitized_history_path id) as [c|] eqn:E.
    + unfold session_files.
      rewrite listdir_insert_existing by (rewrite E; eauto). reflexivity.
    + rewrite (session_files_insert_new fs id _ Hok E). reflexivity.
  - intros w w2 r Hdel. unfold delete_history in Hdel.
    change (store (touch_lock w id)) with (store w) in Hdel.
    unfold os_path_exists in Hdel.
    destruct (store w !! get_sanitized_history_path id) as [c|] eqn:E;
      [|discriminate].
    cbn [negb] in Hdel.
    assert (Hw2 : store w2 = delete (get_sanitized_history_path id) (store w)).
    { destruct (disk (touch_lock w id)); try discriminate;
        injection Hdel as <- _; reflexivity. }
    rewrite Hw2. unfold session_count.
    rewrite <- (insert_id (store w) _ _ E) at 2.
    rewrite <- insert_delete_eq.
    rewrite (session_files_insert_new _ id c Hok) by apply lookup_delete_eq.
    reflexivity.
Qed.

Lemma session_count_follows_records_witness :
  session_count (save_chat_data Healthy (store_with 3) (py "zz") empty_chat_data).1
  = 4%nat
  /\ session_count (save_chat_data Healthy (store_with 3) (py "ab") empty_chat_data).1
     = 3%nat.
Proof.
  destruct (session_count_follows_records (py "zz") eq_refl) as [Hzz _].
  destruct (session_count_follows_records (py "ab") eq_refl) as [Hab _].
  rewrite Hzz, Hab. vm_compute. auto.
Defined.

(** ** Listing the sessions *)

Lemma splitext_root_json (g : str) :
  splitext_root (g ++ py ".json")
  = if forallb (fun c => c =? 46) (rev g) then g ++ py ".json" else g.
Proof.
  unfold splitext_root. rewrite rev_app_distr.
  change (rev (py ".json")) with ([110; 111; 115; 106; 46] : list N).
  cbn [app N.eqb Pos.eqb].
  destruct (forallb _ (rev g)); [reflexivity | apply rev_involutive].
Qed.

Lemma accepted_has_no_dot (id : str) :
  SafeChatID_ok id = true -> 46 ∉ id.
Proof.
  unfold SafeChatID_ok. intros H. apply andb_true_iff in H as [_ Hall].
  rewrite forallb_forall in Hall. intros Hin.
  apply list_elem_of_In in Hin. specialize (Hall _ Hin). discriminate.
Qed.

Lemma accepted_not_all_dots (id : str) :
  SafeChatID_ok id = true -> forallb (fun c => c =? 46) (rev id) = false.
Proof.
  intros Hok. pose proof (accepted_has_no_dot id Hok) as Hdot.
  unfold SafeChatID_ok in Hok. apply andb_true_iff in Hok as [Hlen _].
  apply andb_true_iff in Hlen as [Hmin _]. apply Nat.leb_le in Hmin.
  destruct id as [|c id]; [simpl in Hmin; lia|].
  destruct (forallb _ (rev (c :: id))) eqn:E; [exfalso|reflexivity].
  rewrite forallb_forall in E.
  specialize (E c ltac:(apply in_rev; rewrite rev_involutive; left; reflexivity)).
  apply N.eqb_eq in E. subst c. apply Hdot. left.
Qed.

(** X8: for an accepted chat id, [list_chats] lists the id exactly when
    the session has a record file. *)
Theorem list_chats_lists_the_sessions (w : world) (id : str) :
  SafeChatID_ok id = true ->
  exists chat_ids,
    list_chats w = (w, Ok (JSON_chat_ids chat_ids))
    /\ (id ∈ chat_ids
        <-> os_path_exists (store w) (get_sanitized_history_path id) = true).
Proof.
  intros Hok. eexists. split; [reflexivity|].
  unfold session_files, os_listdir, os_path_exists.
  rewrite list_elem_of_fmap. split.
  - intros (f & Hroot & Hf).
    apply list_elem_of_filter in Hf as [Hjson Hf].
    apply list_elem_of_omap in Hf as (p & Hp & Hname).
    apply endswith_true in Hjson as [g ->].
    rewrite splitext_root_json in Hroot.
    destruct (forallb _ (rev g)) eqn:Edots.
    + exfalso. apply (accepted_has_no_dot id Hok). rewrite Hroot.
      apply elem_of_app. right. left.
    + subst g. apply entry_name_Some in Hname.
      apply elem_of_elements, elem_of_dom in Hp as [c Hc].
      rewrite (history_path_of_accepted id Hok).
      change (py "/" ++ id ++ py ".json") with (47 :: id ++ py ".json").
      rewrite <- Hname, Hc. reflexivity.
  - intros Hex. exists (id ++ py ".json"). split.
    + rewrite splitext_root_json, (accepted_not_all_dots id Hok). reflexivity.
    + apply list_elem_of_filter. split; [apply endswith_app|].
      apply list_elem_of_omap. exists (get_sanitized_history_path id).
      split; [|exact (accepted_entry_name id Hok)].
      apply elem_of_elements, elem_of_dom.
      destruct (store w !! get_sanitized_history_path id); [eauto|discriminate].
Qed.

Lemma list_chats_lists_the_sessions_witness :
  exists chat_ids,
    list_chats (world_abc Unparseable) = (world_abc Unparseable, Ok (JSON_chat_ids chat_ids))
    /\ py "abc" ∈ chat_ids.
Proof.
  destruct (list_chats_lists_the_sessions (world_abc Unparseable) (py "abc") eq_refl)
    as (ids & Hl & Hiff).
  exists ids. split; [exact Hl|]. apply Hiff. vm_compute. reflexivity.
Defined.

(** ** What a request may change *)

Section Footprint.

Variable llama_cli : list str -> result process.
Variable chat_request : ChatRequest.

Local Abbreviation fstep := (step llama_cli chat_request).
Local Abbreviation frun := (run llama_cli chat_request).
Local Abbreviation own_path := (get_sanitized_history_path (chat_id chat_request)).

Lemma finalize_footprint (w : world) (a : str) :
  (store (finalize w chat_request a).1 = store w
   \/ exists c, store (finalize w chat_request a).1 = <[own_path := c]> (store w))
  /\ disk (finalize w chat_request a).1 = disk w
  /\ chat_locks (finalize w chat_request a).1 = chat_locks w
  /\ child (finalize w chat_request a).1 = child w.
Proof.
  unfold finalize.
  destruct (load_chat_data _ _) as [d|e]; [|auto].
  destruct (history d) as [h|]; [|auto].
  unfold save_chat_data. destruct (disk w) eqn:E; cbn [fst store set_store disk];
    rewrite ?E; eauto 6.
Qed.

Lemma step_footprint (w : world) (g : gen) :
  (store (fstep w g).1.1 = store w
   \/ exists c, store (fstep w g).1.1 = <[own_path := c]> (store w))
  /\ disk (fstep w g).1.1 = disk w
  /\ chat_locks w ⊆ chat_locks (fstep w g).1.1.
Proof.
  destruct g as [|cmd|p full|p full|p full|p| |a| |e| ]; cbn [step];
    try (split; [left; reflexivity | split; reflexivity]).
  - destruct (load_chat_data _ _); cbn [fst snd store disk chat_locks touch_lock];
      (split; [left; reflexivity | split; [reflexivity | set_solver]]).
  - destruct (create_subprocess_exec _ _);
      (split; [left; reflexivity | split; reflexivity]).
  - destruct (read1 p) as [[|b t] p']; [destruct (stdout_closes p)|];
      (split; [left; reflexivity | split; reflexivity]).
  - destruct (wait_returns p); [|split; [left; reflexivity | split; reflexivity]].
    destruct (negb _); [split; [left; reflexivity | split; reflexivity]|].
    destruct (assistant_response _);
      (split; [left; reflexivity | split; reflexivity]).
  - destruct (finalize_footprint w a) as (Hs & Hd & Hl & _).
    destruct (finalize _ _ _) as [w' [[]|e']]; cbn [fst snd] in *;
      (split; [exact Hs | split; [exact Hd | rewrite Hl; reflexivity]]).
Qed.

Lemma run_footprint (n : nat) :
  forall (w w' : world) (g g' : gen) (out : list bytes),
    frun n w g = (w', g', out) ->
    (store w' = store w \/ exists c, store w' = <[own_path := c]> (store w))
    /\ disk w' = disk w
    /\ chat_locks w ⊆ chat_locks w'.
Proof.
  induction n as [|n IH]; intros w w' g g' out Hrun.
  - injection Hrun as <- _ _. auto.
  - rewrite run_S in Hrun.
    destruct (step_footprint w g) as (Hs1 & Hd1 & Hl1).
    destruct (fstep w g) as [[w1 g1] o]. cbn [fst snd] in *.
    destruct (frun n w1 g1) as [[w2 g2] out2] eqn:Er.
    injection Hrun as <- _ _.
    destruct (IH _ _ _ _ _ Er) as (Hs2 & Hd2 & Hl2).
    split; [|split; [congruence | etrans; eassumption]].
    destruct Hs2 as [-> | [c2 ->]]; [exact Hs1|].
    right. exists c2. destruct Hs1 as [-> | [c1 ->]]; [reflexivity|].
    apply insert_insert_eq.
Qed.

(** X9: however far the generator runs, it changes no file but the record
    of its own session: every other path holds what it held, and, between
    accepted chat ids, a load for any other id returns what it returned. *)
Theorem generator_touches_its_own_record_only (n : nat) (w w' : world)
    (g g' : gen) (out : list bytes) :
  frun n w g = (w', g', out) ->
  (forall p, p <> own_path -> store w' !! p = store w !! p)
  /\ (forall id2,
        SafeChatID_ok (chat_id chat_request) = true ->
        SafeChatID_ok id2 = true ->
        id2 <> chat_id chat_request ->
        entry_name HISTORY_DIR (get_sanitized_history_path id2)
        = Some (id2 ++ py ".json")
        /\ load_chat_data (store w') id2 = load_chat_data (store w) id2).
Proof.
  intros Hrun. destruct (run_footprint n _ _ _ _ _ Hrun) as (Hs & _ & _).
  assert (Hp : forall p, p <> own_path -> store w' !! p = store w !! p).
  { intros p Hne. destruct Hs as [-> | [c ->]]; [reflexivity|].
    apply lookup_insert_ne. congruence. }
  split; [exact Hp|].
  intros id2 _ Hok2 Hne. split; [exact (accepted_entry_name id2 Hok2)|].
  apply load_other_path, Hp.
  intros H. apply Hne, history_path_inj, H.
Qed.

Lemma stream_footprint (w : world) :
  (store (stream_llama_response llama_cli chat_request w).1.1 = store w
   \/ exists c, store (stream_llama_response llama_cli chat_request w).1.1
                = <[own_path := c]> (store w))
  /\ chat_locks w ⊆ chat_locks (stream_llama_response llama_cli chat_request w).1.1.
Proof.
  unfold stream_llama_response.
  destruct (fstep w At_lock1) as [[w1 g1] o] eqn:Es.
  assert (Hdefault : (store w1 = store w
                      \/ exists c, store w1 = <[own_path := c]> (store w))
                     /\ chat_locks w ⊆ chat_locks w1).
  { pose proof (step_footprint w At_lock1) as (Hs & _ & Hl).
    rewrite Es in Hs, Hl. auto. }
  destruct g1 as [|cmd|p full|p full|p full|p| |a| |e| ]; try exact Hdefault.
  destruct (create_subprocess_exec llama_cli cmd) as [p|e];
    destruct (frun _ w At_lock1) as [[w2 g2] out] eqn:Er;
    destruct (run_footprint _ _ _ _ _ _ Er) as (Hs & _ & Hl); auto.
Qed.

(** X10: a request that [chat] admits and that is then streamed to its end
    with nothing else touching the store keeps the number of stored
    sessions within the maximum. *)
Theorem admitted_request_keeps_the_cap (w : world) :
  (session_count (store w) <= MAX_TOTAL_CHATS)%nat ->
  chat w chat_request false = (w, Ok (StreamingResponse At_lock1)) ->
  (session_count
     (store (stream_llama_response llama_cli chat_request w).1.1)
   <= MAX_TOTAL_CHATS)%nat.
Proof.
  intros Hcap Hchat. destruct (stream_footprint w) as [[-> | [c ->]] _];
    [exact Hcap|].
  unfold chat, os_path_exists in Hchat.
  destruct (store w !! own_path) as [c'|] eqn:E.
  - unfold session_count, session_files.
    rewrite listdir_insert_existing by (rewrite E; eauto). exact Hcap.
  - cbn [negb andb] in Hchat.
    destruct (MAX_TOTAL_CHATS <=? _)%nat eqn:Efull; [discriminate|].
    apply Nat.leb_gt in Efull.
    pose proof (session_count_le_listdir (<[own_path := c]> (store w))).
    pose proof (listdir_insert_le (store w) own_path HISTORY_DIR c). lia.
Qed.

(** X11: the lock table only grows: no step of the generator and no
    delete removes an entry, the first step of the generator and every
    delete, also one answered with 404, leave an entry for their chat id. *)
Theorem lock_table_only_grows (n : nat) (w w' : world) (g g' : gen)
    (out : list bytes) :
  frun n w g = (w', g', out) ->
  chat_locks w ⊆ chat_locks w'
  /\ (g = At_lock1 -> (0 < n)%nat -> chat_id chat_request ∈ chat_locks w')
  /\ (forall id, chat_locks w ⊆ chat_locks (delete_history w id).1
                 /\ id ∈ chat_locks (delete_history w id).1).
Proof.
  intros Hrun. destruct (run_footprint n _ _ _ _ _ Hrun) as (_ & _ & Hl).
  split; [exact Hl|]. split.
  - intros -> Hn. destruct n as [|n]; [lia|]. rewrite run_S in Hrun.
    destruct (fstep w At_lock1) as [[w1 g1] o] eqn:Es.
    assert (Hin : chat_id chat_request ∈ chat_locks w1).
    { cbn [step] in Es. destruct (load_chat_data _ _);
        injection Es as <- _ _; cbn [chat_locks touch_lock]; set_solver. }
    destruct (frun n w1 g1) as [[w2 g2] out2] eqn:Er.
    injection Hrun as <- _ _.
    destruct (run_footprint n _ _ _ _ _ Er) as (_ & _ & Hl2). set_solver.
  - intros id. unfold delete_history.
    destruct (negb _); [cbn [fst chat_locks touch_lock]; set_solver|].
    destruct (disk (touch_lock w id));
      cbn [fst chat_locks touch_lock set_store]; set_solver.
Qed.

End Footprint.

Lemma generator_touches_its_own_record_only_witness :
  load_chat_data
    (store (run cli_fine (req "abc" "hello") 60 world_two At_lock1).1.1) (py "xyz")
  = Ok record_hi_hey
  /\ load_chat_data
       (store (run cli_fine (req "abc" "hello") 60 world_two At_lock1).1.1) (py "abc")
     = Ok {| system_prompt := None;
             history := Some [{| user := py "hello"; assistant := py "fine" |}] |}.
Proof.
  destruct (generator_touches_its_own_record_only cli_fine (req "abc" "hello")
              60 world_two _ At_lock1 _ _
              (triple_eta (run cli_fine (req "abc" "hello") 60 world_two At_lock1)))
    as [_ Hother].
  split; [|vm_compute; reflexivity].
  destruct (Hother (py "xyz") ltac:(vm_compute; reflexivity)
              ltac:(vm_compute; reflexivity) ltac:(discriminate))
    as [_ ->].
  vm_compute. reflexivity.
Defined.

Lemma admitted_request_keeps_the_cap_witness :
  session_count (store world_99) = 99%nat
  /\ (session_count
        (store (stream_llama_response cli_fine (req "zz" "hello") world_99).1.1)
      <= MAX_TOTAL_CHATS)%nat.
Proof.
  split; [vm_compute; reflexivity|].
  apply (admitted_request_keeps_the_cap cli_fine (req "zz" "hello") world_99).
  - vm_compute. lia.
  - vm_compute. reflexivity.
Defined.

Lemma lock_table_only_grows_witness :
  py "abc" ∈ chat_locks (run cli_fine (req "abc" "hello") 1 world0 At_lock1).1.1
  /\ py "ghost" ∈ chat_locks (delete_history world0 (py "ghost")).1.
Proof.
  destruct (lock_table_only_grows cli_fine (req "abc" "hello") 1 world0 _
              At_lock1 _ _
              (triple_eta (run cli_fine (req "abc" "hello") 1 world0 At_lock1)))
    as (_ & Hown & Hdel).
  split; [apply Hown; [reflexivity | lia] | apply Hdel].
Defined.

(** ** What the consumer receives *)

Lemma concat_tokens (l : bytes) : concat (tokens l) = l.
Proof. induction l as [|b l IH]; [reflexivity|]. simpl. f_equal. exact IH. Qed.

(** X12: whenever the first load succeeds and the child is spawned, closes
    its output and is reaped, the bytes streamed to the consumer are, in
    order, exactly the standard output of the child, followed by the error
    notice when the exit status is not zero and by nothing otherwise,
    whether or not a turn gets persisted. *)
Theorem stream_is_stdout_then_notice (llama_cli : list str -> result process)
    (chat_request : ChatRequest) (w : world) (d : chat_data) (p : process) :
  load_chat_data (store w) (chat_id chat_request) = Ok d ->
  create_subprocess_exec llama_cli
    (command (full_prompt d (message chat_request))) = Ok p ->
  completes p = true ->
  concat (stream_llama_response llama_cli chat_request w).2
  = stdout p ++ (if (returncode p =? 0)%Z then []
                 else encode (error_message (stderr_text p))).
Proof.
  intros Hload Hp Hcomp. destruct (returncode p =? 0)%Z eqn:Erc.
  - apply Z.eqb_eq in Erc. rewrite app_nil_r.
    destruct (assistant_response (stdout p)) as [|c a] eqn:Ha.
    + destruct (empty_extraction_finishes llama_cli chat_request w d p
                  Hload Hp Hcomp Erc Ha)
        as (w' & -> & _).
      apply concat_tokens.
    + rewrite (successful_generation_finalizes llama_cli chat_request w d p
                 (c :: a) Hload Hp Hcomp Erc Ha) by discriminate.
      apply concat_tokens.
  - apply Z.eqb_neq in Erc.
    destruct (failed_generation_finishes llama_cli chat_request w d p
                Hload Hp Hcomp Erc)
      as (w' & -> & _).
    cbn [snd]. rewrite concat_app, concat_tokens. simpl. rewrite app_nil_r.
    reflexivity.
Qed.

Lemma stream_is_stdout_then_notice_witness :
  concat (stream_llama_response (exits_with "par" 1 [x20; xc3; xa9; x21; x0a])
            (req "abc" "hello") world0).2
  = [x70; x61; x72; x0a; x0a]
    ++ list_byte_of_string "[ERROR] Model execution failed. Details:"
    ++ [x0a; xc3; xa9; x21; x0a].
Proof.
  rewrite (stream_is_stdout_then_notice
             (exits_with "par" 1 [x20; xc3; xa9; x21; x0a]) (req "abc" "hello")
             world0 empty_chat_data
             (exited (pyb "par") 1 [x20; xc3; xa9; x21; x0a])
             eq_refl ltac:(vm_compute; reflexivity) eq_refl).
  vm_compute. reflexivity.
Defined.

(** ** Records that cannot be written *)

(** X13: a record without the key [history] is read as one without turns
    when the prompt is built, but the final block raises [KeyError] on it:
    when the child is spawned, closes its output, is reaped and leaves
    status zero and a response, the whole output is streamed, the generator
    ends with the exception, and the store is left as it was. *)
Theorem record_without_history_is_never_extended
    (llama_cli : list str -> result process) (chat_request : ChatRequest)
    (w : world) (d : chat_data) (p : process) :
  load_chat_data (store w) (chat_id chat_request) = Ok d ->
  history d = None ->
  create_subprocess_exec llama_cli
    (command (full_prompt d (message chat_request))) = Ok p ->
  completes p = true ->
  returncode p = 0%Z ->
  assistant_response (stdout p) <> [] ->
  full_prompt d (message chat_request)
  = full_prompt {| system_prompt := system_prompt d; history := Some [] |}
      (message chat_request)
  /\ exists w',
       stream_llama_response llama_cli chat_request w
       = (w', Raised KeyError, tokens (stdout p))
       /\ store w' = store w.
Proof.
  intros Hload Hh Hp Hcomp Hrc Hne. split.
  { unfold full_prompt, prompt_parts. cbn [history system_prompt]. rewrite Hh.
    reflexivity. }
  eexists. split.
  - rewrite (successful_generation_finalizes llama_cli chat_request w d p _
               Hload Hp Hcomp Hrc eq_refl Hne).
    cbv zeta.
    rewrite (finalize_without_history chat_request
               (set_child (touch_lock w (chat_id chat_request)) Child_reaped)
               d _ Hload Hh).
    reflexivity.
  - reflexivity.
Qed.

Lemma record_without_history_is_never_extended_witness :
  exists w',
    stream_llama_response cli_fine (req "abc" "hello")
      (world_abc (Document record_no_history))
    = (w', Raised KeyError, tokens (pyb "### Assistant: fine"))
    /\ store w' = store_abc (Document record_no_history).
Proof.
  destruct (record_without_history_is_never_extended cli_fine (req "abc" "hello")
              (world_abc (Document record_no_history)) record_no_history
              (exited (pyb "### Assistant: fine") 0 (pyb ""))
              ltac:(vm_compute; reflexivity) eq_refl
              ltac:(vm_compute; reflexivity) eq_refl eq_refl
              ltac:(vm_compute; discriminate))
    as (_ & w' & Hrun & Hstore).
  exists w'. split; [exact Hrun | exact Hstore].
Defined.

(** X14: when the write of the final block fails after the file was
    opened, for a child that is spawned, closes its output, is reaped and
    leaves status zero and a response, the generator ends with [OSError]
    after the whole output was streamed and the session is left with a
    record that does not parse:
    every later request for it raises at its first load, before any child
    is spawned, and so does the history request, until a delete removes the
    file, after which a load starts from the empty record. *)
Theorem failed_write_bricks_the_session
    (llama_cli : list str -> result process) (chat_request : ChatRequest)
    (w : world) (d : chat_data) (h : list turn) (p : process) :
  disk w = Write_fails ->
  load_chat_data (store w) (chat_id chat_request) = Ok d ->
  history d = Some h ->
  create_subprocess_exec llama_cli
    (command (full_prompt d (message chat_request))) = Ok p ->
  completes p = true ->
  returncode p = 0%Z ->
  assistant_response (stdout p) <> [] ->
  exists w',
    stream_llama_response llama_cli chat_request w
    = (w', Raised OSError, tokens (stdout p))
    /\ (forall cli2 msg2,
          stream_llama_response cli2
            {| message := msg2; chat_id := chat_id chat_request |} w'
          = (touch_lock w' (chat_id chat_request), Raised JSONDecodeError, []))
    /\ get_history w' (chat_id chat_request) = (w', Raise JSONDecodeError)
    /\ exists w2 r,
         delete_history w' (chat_id chat_request) = (w2, Ok r)
         /\ load_chat_data (store w2) (chat_id chat_request) = Ok empty_chat_data.
Proof.
  intros Hdisk Hload Hh Hp Hcomp Hrc Hne.
  set (w1 := set_child (touch_lock w (chat_id chat_request)) Child_reaped).
  set (w' := set_store w1 (<[get_sanitized_history_path (chat_id chat_request)
                             := Unparseable]> (store w))).
  assert (Hbad : load_chat_data (store w') (chat_id chat_request)
                 = Raise JSONDecodeError).
  { unfold w'. cbn [store set_store]. apply load_after_insert. }
  assert (Hlook : store w' !! get_sanitized_history_path (chat_id chat_request)
                  = Some Unparseable).
  { unfold w'. cbn [store set_store]. apply lookup_insert_eq. }
  exists w'. split.
  { rewrite (successful_generation_finalizes llama_cli chat_request w d p _
               Hload Hp Hcomp Hrc eq_refl Hne).
    cbv zeta. fold w1. unfold finalize.
    change (store w1) with (store w). change (disk w1) with (disk w).
    rewrite Hload, Hh, Hdisk. reflexivity. }
  split.
  { intros cli2 msg2. unfold stream_llama_response. cbn [step chat_id].
    change (store (touch_lock w' (chat_id chat_request))) with (store w').
    rewrite Hbad. reflexivity. }
  split.
  { unfold get_history, os_path_exists. rewrite Hlook, Hbad. reflexivity. }
  eexists _, _. split.
  - unfold delete_history, os_path_exists.
    change (store (touch_lock w' (chat_id chat_request))) with (store w').
    change (disk (touch_lock w' (chat_id chat_request))) with (disk w).
    rewrite Hlook, Hdisk. reflexivity.
  - cbn [store set_store]. rewrite load_chat_data_lookup, lookup_delete_eq.
    reflexivity.
Qed.

Lemma failed_write_bricks_the_session_witness :
  exists w',
    stream_llama_response cli_fine (req "abc" "hello") world_failing_disk
    = (w', Raised OSError, tokens (pyb "### Assistant: fine"))
    /\ get_history w' (py "abc") = (w', Raise JSONDecodeError).
Proof.
  destruct (failed_write_bricks_the_session cli_fine (req "abc" "hello")
              world_failing_disk record_hi_hey
              [{| user := py "hi"; assistant := py "hey" |}]
              (exited (pyb "### Assistant: fine") 0 (pyb ""))
              eq_refl ltac:(vm_compute; reflexivity) eq_refl
              ltac:(vm_compute; reflexivity) eq_refl eq_refl
              ltac:(vm_compute; discriminate))
    as (w' & Hrun & _ & Hget & _).
  exists w'. split; [exact Hrun | exact Hget].
Defined.

(** ** Deleting a session *)

(** X15: after a successful delete the session is gone for every handler:
    the history request and a second delete answer 404, and a load returns
    the empty record, so the system prompt of the session is forgotten
    with its turns; a delete for a session without record answers 404 and
    leaves the store as it was. *)
Theorem deleted_session_is_forgotten (w w2 : world) (id : str) (r : response) :
  delete_history w id = (w2, Ok r) ->
  get_history w2 id = (w2, Raise (HTTPException 404))
  /\ (delete_history w2 id).2 = Raise (HTTPException 404)
  /\ store (delete_history w2 id).1 = store w2
  /\ load_chat_data (store w2) id = Ok empty_chat_data
  /\ (forall msg, full_prompt empty_chat_data msg = format_message msg).
Proof.
  intros Hdel. destruct (delete_history_ok _ _ _ _ Hdel) as [Hnone _].
  unfold get_history, delete_history, os_path_exists.
  change (store (touch_lock w2 id)) with (store w2).
  rewrite load_chat_data_lookup, Hnone. cbn [negb fst snd].
  repeat split; reflexivity.
Qed.

Lemma deleted_session_is_forgotten_witness :
  get_history then_deleted.1 (py "abc")
  = (then_deleted.1, Raise (HTTPException 404))
  /\ load_chat_data (store then_deleted.1) (py "abc") = Ok empty_chat_data.
Proof.
  destruct (deleted_session_is_forgotten three_steps_in.1.1 then_deleted.1
              (py "abc") (JSON_detail (py "Chat history 'abc' deleted."))
              ltac:(vm_compute; reflexivity))
    as (Hget & _ & _ & Hload & _).
  split; [exact Hget | exact Hload].
Defined.

(** ** Authentication *)

(** With the secret key the file ships with, [get_api_key] accepts every
    request, with any key or none; with any other secret it accepts
    exactly the requests whose header carries that secret and raises 403
    for the rest, a missing header included. *)
Lemma default_secret_accepts_everything (secret : str) (api_key : option str) :
  get_api_key api_key = Ok None
  /\ (secret <> SECRET_API_KEY ->
      (api_key = Some secret /\ get_api_key_with secret api_key = Ok (Some secret))
      \/ (api_key <> Some secret
          /\ get_api_key_with secret api_key = Raise (HTTPException 403))).
Proof.
  split; [reflexivity|]. intros Hne. unfold get_api_key_with.
  rewrite bool_decide_eq_false_2 by exact Hne.
  destruct (decide (api_key = Some secret)) as [-> | Hk].
  - left. rewrite bool_decide_eq_true_2 by reflexivity. auto.
  - right. rewrite bool_decide_eq_false_2 by exact Hk. auto.
Qed.
